(** * test-api: the Redis cache-aside decorators and the cache-bypass selector

    A shallow embedding of
      - api/infrastructure/cache/redis  (cachedUserRepository, cachedPostRepository),
      - api/usecase                     (userUsecase, postUsecase),
      - api/interfaces/handler          (UserHandler, UserHandlerV2, PostHandlerV2,
                                         PostHandlerBridge, parseNoCache),
    over an abstract MySQL data source and a model of the Redis key-value
    store.  Go values are modelled as follows: [int] and [int64] are [Z] with
    the 64-bit two's-complement wrap-around written out, [string] and [[]byte]
    are [string], a [(T, error)] result is [error + T], an [error] result is
    [option error], and the Redis keyspace is a [gmap string Entry]. *)

From Stdlib Require Import ZArith Ascii String List.
From stdpp Require Import base option list gmap strings pretty.

Open Scope string_scope.
Open Scope Z_scope.

(** ** Go machine integers *)

Module GoInt.

Definition MinInt : Z := - 2 ^ 63.
Definition MaxInt : Z := 2 ^ 63 - 1.

(** Two's-complement wrap-around of a mathematical integer into [int]. *)
Definition wrap (z : Z) : Z := (z + 2 ^ 63) mod 2 ^ 64 - 2 ^ 63.

Definition sub (a b : Z) : Z := wrap (a - b).
Definition mul (a b : Z) : Z := wrap (a * b).

Definition in_range (z : Z) : Prop := MinInt <= z <= MaxInt.

End GoInt.

(** ** fmt.Sprintf verbs and string helpers *)

(** [%d]: the decimal rendering of an integer, with a leading [-] when
    negative. *)
Definition Sprintf_d (z : Z) : string := pretty z.

Definition is_colon (c : ascii) : bool := Ascii.eqb c ":"%char.

Fixpoint has_colon (s : string) : bool :=
  match s with
  | EmptyString => false
  | String c s' => is_colon c || has_colon s'
  end.

(** ** strconv *)

Definition digit_of (c : ascii) : option Z :=
  let n := Z.of_nat (nat_of_ascii c) in
  if (48 <=? n) && (n <=? 57) then Some (n - 48) else None.

Fixpoint digits_value (s : string) (acc : Z) : option Z :=
  match s with
  | EmptyString => Some acc
  | String c s' =>
      match digit_of c with
      | Some d => digits_value s' (10 * acc + d)
      | None => None
      end
  end.

(** A rendered integer begins with a digit or a minus sign. *)
Definition starts_numeric (s : string) : bool :=
  match s with
  | EmptyString => false
  | String c _ =>
      match digit_of c with Some _ => true | None => Ascii.eqb c "-"%char end
  end.

(** [strconv.ParseInt(s, 10, 64)]: an optional sign followed by one or more
    decimal digits.  A syntax error yields value 0; a value out of range
    yields the nearest representable integer; both come with an error. *)
Definition ParseInt (s : string) : Z * bool :=
  let '(neg, body) :=
    match s with
    | String "-"%char r => (true, r)
    | String "+"%char r => (false, r)
    | _ => (false, s)
    end in
  match body with
  | EmptyString => (0, false)
  | _ =>
      match digits_value body 0 with
      | None => (0, false)
      | Some n =>
          let v := if neg then - n else n in
          if v <? GoInt.MinInt then (GoInt.MinInt, false)
          else if GoInt.MaxInt <? v then (GoInt.MaxInt, false)
          else (v, true)
      end
  end.

(** [v, _ := strconv.Atoi(s)]: the value with the error dropped. *)
Definition Atoi_value (s : string) : Z := fst (ParseInt s).

(** ** Redis glob patterns (the subset with literals, [?] and [*]) *)

Fixpoint glob_match (pat s : string) : bool :=
  match pat with
  | EmptyString => match s with EmptyString => true | _ => false end
  | String "*"%char pat' =>
      (fix star (s : string) : bool :=
         glob_match pat' s ||
         match s with
         | EmptyString => false
         | String _ s' => star s'
         end) s
  | String "?"%char pat' =>
      match s with
      | EmptyString => false
      | String _ s' => glob_match pat' s'
      end
  | String c pat' =>
      match s with
      | EmptyString => false
      | String d s' => Ascii.eqb c d && glob_match pat' s'
      end
  end.

(** ** Errors *)

(** Go [error] values as the code builds and inspects them: the sentinel
    [sql.ErrNoRows], a fresh message, and [fmt.Errorf("...: %w", err)]. *)
Inductive error : Type :=
| ErrNoRows
| errors_New (msg : string)
| Errorf_w (prefix : string) (cause : error).

Fixpoint errors_Is_ErrNoRows (e : error) : bool :=
  match e with
  | ErrNoRows => true
  | errors_New _ => false
  | Errorf_w _ cause => errors_Is_ErrNoRows cause
  end.

(** ** api/domain *)

Module domain.

(** [time.Time] as an instant in nanoseconds. *)
Definition Time : Type := Z.

Record User : Type := mkUser {
  User_ID : Z;
  User_Name : string;
  User_Email : string;
  User_Age : option Z;
  User_CreatedAt : Time;
  User_UpdatedAt : Time
}.

Record Post : Type := mkPost {
  Post_ID : Z;
  Post_UserID : Z;
  Post_CategoryID : option Z;
  Post_Title : string;
  Post_Slug : string;
  Post_Content : string;
  Post_Excerpt : option string;
  Post_Status : string;
  Post_PublishedAt : option Time;
  Post_ViewCount : Z;
  Post_LikeCount : Z;
  Post_CommentCount : Z;
  Post_IsFeatured : bool;
  Post_CreatedAt : Time;
  Post_UpdatedAt : Time
}.

Record Tag : Type := mkTag {
  Tag_ID : Z;
  Tag_Name : string;
  Tag_Slug : string;
  Tag_Description : option string;
  Tag_UsageCount : Z;
  Tag_CreatedAt : Time;
  Tag_UpdatedAt : Time
}.

Record Comment : Type := mkComment {
  Comment_ID : Z;
  Comment_PostID : Z;
  Comment_UserID : Z;
  Comment_ParentID : option Z;
  Comment_Content : string;
  Comment_Status : string;
  Comment_LikeCount : Z;
  Comment_IsEdited : bool;
  Comment_CreatedAt : Time;
  Comment_UpdatedAt : Time
}.

Record CommentWithAuthor : Type := mkCommentWithAuthor {
  CWA_Comment : Comment;
  CWA_AuthorUsername : string;
  CWA_AuthorDisplayName : option string;
  CWA_AuthorAvatarURL : option string
}.

Record PostWithDetails : Type := mkPostWithDetails {
  PWD_Post : Post;
  PWD_AuthorUsername : string;
  PWD_AuthorDisplayName : option string;
  PWD_AuthorAvatarURL : option string;
  PWD_CategoryName : option string;
  PWD_CategorySlug : option string;
  PWD_Tags : list Tag;
  PWD_LatestComments : list CommentWithAuthor
}.

End domain.
Export domain.

(** ** encoding/json *)

(** [json.Marshal] and [json.Unmarshal] at one Go type.  [None] is a non-nil
    error. *)
Class JSON (V : Type) : Type := {
  json_Marshal : V -> option string;
  json_Unmarshal : string -> option V
}.

(** ** The calls the repositories answer *)

Inductive ReadOp : Type :=
| UserFindAll
| UserFindByID (id : Z)
| PostFindAllWithDetails (limit offset : Z)
| PostFindByIDWithDetails (id : Z)
| PostFindBySlugWithDetails (slug : string)
| PostFindByCategoryWithDetails (categorySlug : string) (limit offset : Z)
| PostFindByTagWithDetails (tagSlug : string) (limit offset : Z)
| PostFindFeaturedWithDetails (limit : Z)
| PostGetTotalCount.

Inductive WriteOp : Type :=
| UserCreate (user : User)
| UserUpdate (user : User)
| UserDelete (id : Z)
| PostIncrementViewCount (postID : Z).

(** What a read returns, over all read methods. *)
Inductive Value : Type :=
| VUsers (users : list User)
| VUser (user : User)
| VPosts (posts : list PostWithDetails)
| VPost (post : PostWithDetails)
| VCount (count : Z).

(** ** The data source (MySQL repositories) *)

(** The relational store is opaque: a state [DB], queries that read it and
    statements that change it.  A successful single-record query returns the
    record (the MySQL repositories return a non-nil pointer whenever the
    error is nil).  [Create] and [Update] return the record as the callee
    left it ([user.ID], timestamps). *)
Class DataSource : Type := {
  DB : Type;
  ds_user_FindAll : DB -> error + list User;
  ds_user_FindByID : DB -> Z -> error + User;
  ds_user_Create : DB -> User -> (error + User) * DB;
  ds_user_Update : DB -> User -> (error + User) * DB;
  ds_user_Delete : DB -> Z -> option error * DB;
  ds_post_FindAllWithDetails : DB -> Z -> Z -> error + list PostWithDetails;
  ds_post_FindByIDWithDetails : DB -> Z -> error + PostWithDetails;
  ds_post_FindBySlugWithDetails : DB -> string -> error + PostWithDetails;
  ds_post_FindByCategoryWithDetails :
    DB -> string -> Z -> Z -> error + list PostWithDetails;
  ds_post_FindByTagWithDetails :
    DB -> string -> Z -> Z -> error + list PostWithDetails;
  ds_post_FindFeaturedWithDetails : DB -> Z -> error + list PostWithDetails;
  ds_post_GetTotalCount : DB -> error + Z;
  ds_post_IncrementViewCount : DB -> Z -> option error * DB
}.

(** The JSON codecs of the five cached result types. *)
Class Codecs : Type := {
  json_users :: JSON (list User);
  json_user :: JSON User;
  json_posts :: JSON (list PostWithDetails);
  json_post :: JSON PostWithDetails;
  json_count :: JSON Z
}.

(** ** The world: database, Redis keyspace, clock *)

Definition Minute : Z := 60 * 1000000000.

Record Entry : Type := mkEntry {
  payload : string;
  expires : Z
}.

Inductive Event : Type :=
| RedisGet (key : string)
| RedisSet (key value : string) (ttl : Z)
| RedisDel (keys : list string)
| RedisKeys (pattern : string)
| DSRead (q : ReadOp) (err : option error)
| DSWrite (q : WriteOp) (err : option error).

Definition is_redis_event (e : Event) : bool :=
  match e with
  | RedisGet _ | RedisSet _ _ _ | RedisDel _ | RedisKeys _ => true
  | DSRead _ _ | DSWrite _ _ => false
  end.

Definition is_ds_event (e : Event) : bool := negb (is_redis_event e).

Section World.
Context {ds : DataSource}.

(** [faults] is the schedule of transport failures of the Redis connection:
    each command consumes one flag, [true] meaning the command fails; an
    empty schedule means the store is reachable from now on. *)
Record World : Type := mkWorld {
  db : DB;
  kv : gmap string Entry;
  now : Z;
  faults : list bool
}.

Definition set_db (d : DB) (w : World) : World :=
  {| db := d; kv := kv w; now := now w; faults := faults w |}.
Definition set_kv (m : gmap string Entry) (w : World) : World :=
  {| db := db w; kv := m; now := now w; faults := faults w |}.
Definition set_faults (fs : list bool) (w : World) : World :=
  {| db := db w; kv := kv w; now := now w; faults := fs |}.

(** Time passes: entries whose expiry has been reached are gone. *)
Definition advance (dt : Z) (w : World) : World :=
  {| db := db w;
     kv := filter (fun kv => (now w + dt <? expires (snd kv)) = true) (kv w);
     now := now w + dt;
     faults := faults w |}.

(** A goroutine body whose result is discarded. *)
Definition Task : Type := World -> World * list Event.

Record Res (A : Type) : Type := mkRes {
  value : A;
  world : World;
  events : list Event;
  spawned : list Task
}.
Arguments mkRes {A} _ _ _ _.
Arguments value {A} _.
Arguments world {A} _.
Arguments events {A} _.
Arguments spawned {A} _.

(** Computations of one request: they read and change the world, issue
    commands to the two stores in order, and may start goroutines. *)
Definition M (A : Type) : Type := World -> Res A.

Definition ret {A : Type} (a : A) : M A :=
  fun w => mkRes a w [] [].

Definition bind {A B : Type} (m : M A) (f : A -> M B) : M B :=
  fun w =>
    let r1 := m w in
    let r2 := f (value r1) (world r1) in
    mkRes (value r2) (world r2)
          (events r1 ++ events r2) (spawned r1 ++ spawned r2).

(** [go func() { _ = m }()] *)
Definition go {A : Type} (m : M A) : M unit :=
  fun w => mkRes tt w [] [fun w' => (world (m w'), events (m w'))].

(** *** The Redis client

    The four commands of the cache store the decorators use (go-redis
    [Get], [Set], [Del], [Keys]), each reduced to what the calling code
    observes of its result. *)

Definition next_fault (w : World) : bool := hd false (faults w).
Definition after_command (w : World) : World := set_faults (tl (faults w)) w.

(** [GET key]: [Some] exactly when the returned error is nil. *)
Definition redis_Get (key : string) : M (option string) :=
  fun w =>
    mkRes (if next_fault w then None else payload <$> kv w !! key)
          (after_command w) [RedisGet key] [].

(** [SET key value EX ttl]. *)
Definition redis_Set (key value : string) (ttl : Z) : M unit :=
  fun w =>
    mkRes tt
          (if next_fault w then after_command w
           else set_kv (<[key := mkEntry value (now w + ttl)]> (kv w))
                       (after_command w))
          [RedisSet key value ttl] [].

(** [DEL key...]. *)
Definition redis_Del (keys : list string) : M unit :=
  fun w =>
    mkRes tt
          (if next_fault w then after_command w
           else set_kv (foldr delete (kv w) keys) (after_command w))
          [RedisDel keys] [].

(** [keys, _ := KEYS pattern]: on failure the list is nil. *)
Definition redis_Keys (pattern : string) : M (list string) :=
  fun w =>
    mkRes (if next_fault w then []
           else filter (fun k => glob_match pattern k = true)
                       (fst <$> map_to_list (kv w)))
          (after_command w) [RedisKeys pattern] [].

End World.

Arguments World : clear implicits.
Arguments World {ds}.
Arguments mkRes {ds A} _ _ _ _.
Arguments value {ds A} _.
Arguments world {ds A} _.
Arguments events {ds A} _.
Arguments spawned {ds A} _.

Declare Scope go_scope.
Notation "'let*' x ':=' m 'in' k" := (bind m (fun x => k))
  (at level 10, x name, m at level 100, k at level 200) : go_scope.
Notation "'let*' '_' ':=' m 'in' k" := (bind m (fun _ => k))
  (at level 10, m at level 100, k at level 200) : go_scope.
Open Scope go_scope.

(** ** Repositories *)

Section Repositories.
Context {ds : DataSource} {codecs : Codecs}.

(** [domain.UserRepository].  [Create] and [Update] take a [*User] that the
    callee updates in place; here they return the updated record. *)
Record UserRepository : Type := {
  FindAll : M (error + list User);
  FindByID : Z -> M (error + User);
  Create : User -> M (error + User);
  Update : User -> M (error + User);
  Delete : Z -> M (option error)
}.

(** [domain.PostRepository] *)
Record PostRepository : Type := {
  FindAllWithDetails : Z -> Z -> M (error + list PostWithDetails);
  FindByIDWithDetails : Z -> M (error + PostWithDetails);
  FindBySlugWithDetails : string -> M (error + PostWithDetails);
  FindByCategoryWithDetails : string -> Z -> Z -> M (error + list PostWithDetails);
  FindByTagWithDetails : string -> Z -> Z -> M (error + list PostWithDetails);
  FindFeaturedWithDetails : Z -> M (error + list PostWithDetails);
  GetTotalCount : M (error + Z);
  IncrementViewCount : Z -> M (option error)
}.

Definition err_of {A : Type} (r : error + A) : option error :=
  match r with inl e => Some e | inr _ => None end.

(** *** infrastructure/persistence/mysql: the repositories over the data source *)

Definition ds_query {A : Type} (q : ReadOp) (f : DB -> error + A) : M (error + A) :=
  fun w => mkRes (f (db w)) w [DSRead q (err_of (f (db w)))] [].

Definition ds_exec {A : Type} (q : WriteOp) (f : DB -> A * DB)
    (err : A -> option error) : M A :=
  fun w =>
    mkRes (fst (f (db w))) (set_db (snd (f (db w))) w)
          [DSWrite q (err (fst (f (db w))))] [].

Definition mysql_NewUserRepository : UserRepository := {|
  FindAll := ds_query UserFindAll ds_user_FindAll;
  FindByID := fun id => ds_query (UserFindByID id) (fun d => ds_user_FindByID d id);
  Create := fun user => ds_exec (UserCreate user) (fun d => ds_user_Create d user) err_of;
  Update := fun user => ds_exec (UserUpdate user) (fun d => ds_user_Update d user) err_of;
  Delete := fun id => ds_exec (UserDelete id) (fun d => ds_user_Delete d id) (fun e => e)
|}.

Definition mysql_NewPostRepository : PostRepository := {|
  FindAllWithDetails := fun limit offset =>
    ds_query (PostFindAllWithDetails limit offset)
             (fun d => ds_post_FindAllWithDetails d limit offset);
  FindByIDWithDetails := fun id =>
    ds_query (PostFindByIDWithDetails id) (fun d => ds_post_FindByIDWithDetails d id);
  FindBySlugWithDetails := fun slug =>
    ds_query (PostFindBySlugWithDetails slug)
             (fun d => ds_post_FindBySlugWithDetails d slug);
  FindByCategoryWithDetails := fun categorySlug limit offset =>
    ds_query (PostFindByCategoryWithDetails categorySlug limit offset)
             (fun d => ds_post_FindByCategoryWithDetails d categorySlug limit offset);
  FindByTagWithDetails := fun tagSlug limit offset =>
    ds_query (PostFindByTagWithDetails tagSlug limit offset)
             (fun d => ds_post_FindByTagWithDetails d tagSlug limit offset);
  FindFeaturedWithDetails := fun limit =>
    ds_query (PostFindFeaturedWithDetails limit)
             (fun d => ds_post_FindFeaturedWithDetails d limit);
  GetTotalCount := ds_query PostGetTotalCount ds_post_GetTotalCount;
  IncrementViewCount := fun postID =>
    ds_exec (PostIncrementViewCount postID)
            (fun d => ds_post_IncrementViewCount d postID) (fun e => e)
|}.

(** *** infrastructure/cache/redis: cachedUserRepository *)

Record cachedUserRepository : Type := {
  cu_baseRepo : UserRepository;
  cu_ttl : Z
}.

Definition getCacheKey (id : Z) : string := "user:" +:+ Sprintf_d id.

Definition cachedUser_FindAll (r : cachedUserRepository) : M (error + list User) :=
  let cacheKey := "users:all" in
  let miss : M (error + list User) :=
    let* res := FindAll (cu_baseRepo r) in
    match res with
    | inl err => ret (inl err)
    | inr users =>
        let data := default "" (json_Marshal users) in
        let* _ := redis_Set cacheKey data (cu_ttl r) in
        ret (inr users)
    end in
  let* cached := redis_Get cacheKey in
  match cached with
  | Some cached =>
      match json_Unmarshal cached with
      | Some users => ret (inr users)
      | None => miss
      end
  | None => miss
  end.

Definition cachedUser_FindByID (r : cachedUserRepository) (id : Z) : M (error + User) :=
  let cacheKey := getCacheKey id in
  let miss : M (error + User) :=
    let* res := FindByID (cu_baseRepo r) id in
    match res with
    | inl err => ret (inl err)
    | inr user =>
        let data := default "" (json_Marshal user) in
        let* _ := redis_Set cacheKey data (cu_ttl r) in
        ret (inr user)
    end in
  let* cached := redis_Get cacheKey in
  match cached with
  | Some cached =>
      match json_Unmarshal cached with
      | Some user => ret (inr user)
      | None => miss
      end
  | None => miss
  end.

Definition cachedUser_Create (r : cachedUserRepository) (user : User) : M (error + User) :=
  let* res := Create (cu_baseRepo r) user in
  match res with
  | inl err => ret (inl err)
  | inr user' =>
      let* _ := redis_Del ["users:all"] in
      ret (inr user')
  end.

Definition cachedUser_Update (r : cachedUserRepository) (user : User) : M (error + User) :=
  let* res := Update (cu_baseRepo r) user in
  match res with
  | inl err => ret (inl err)
  | inr user' =>
      let* _ := redis_Del [getCacheKey (User_ID user')] in
      let* _ := redis_Del ["users:all"] in
      ret (inr user')
  end.

Definition cachedUser_Delete (r : cachedUserRepository) (id : Z) : M (option error) :=
  let* err := Delete (cu_baseRepo r) id in
  match err with
  | Some err => ret (Some err)
  | None =>
      let* _ := redis_Del [getCacheKey id] in
      let* _ := redis_Del ["users:all"] in
      ret None
  end.

Definition NewCachedUserRepository (baseRepo : UserRepository) : UserRepository :=
  let r := {| cu_baseRepo := baseRepo; cu_ttl := 5 * Minute |} in
  {| FindAll := cachedUser_FindAll r;
     FindByID := cachedUser_FindByID r;
     Create := cachedUser_Create r;
     Update := cachedUser_Update r;
     Delete := cachedUser_Delete r |}.

(** *** infrastructure/cache/redis: cachedPostRepository *)

Record cachedPostRepository : Type := {
  cp_baseRepo : PostRepository;
  cp_ttl : Z
}.

Definition getPostCacheKey (id : Z) : string := "post:" +:+ Sprintf_d id.

Definition cachedPost_FindAllWithDetails (r : cachedPostRepository) (limit : Z) (offset : Z) :
    M (error + list PostWithDetails) :=
  let cacheKey :=
    "posts:all:limit=" +:+ Sprintf_d limit +:+ ":offset=" +:+ Sprintf_d offset in
  let miss : M (error + list PostWithDetails) :=
    let* res := FindAllWithDetails (cp_baseRepo r) limit offset in
    match res with
    | inl err => ret (inl err)
    | inr posts =>
        let data := default "" (json_Marshal posts) in
        let* _ := redis_Set cacheKey data (cp_ttl r) in
        ret (inr posts)
    end in
  let* cached := redis_Get cacheKey in
  match cached with
  | Some cached =>
      match json_Unmarshal cached with
      | Some posts => ret (inr posts)
      | None => miss
      end
  | None => miss
  end.

Definition cachedPost_FindByIDWithDetails (r : cachedPostRepository) (id : Z) :
    M (error + PostWithDetails) :=
  let cacheKey :=
    getPostCacheKey id in
  let miss : M (error + PostWithDetails) :=
    let* res := FindByIDWithDetails (cp_baseRepo r) id in
    match res with
    | inl err => ret (inl err)
    | inr post =>
        let data := default "" (json_Marshal post) in
        let* _ := redis_Set cacheKey data (cp_ttl r) in
        ret (inr post)
    end in
  let* cached := redis_Get cacheKey in
  match cached with
  | Some cached =>
      match json_Unmarshal cached with
      | Some post => ret (inr post)
      | None => miss
      end
  | None => miss
  end.

Definition cachedPost_FindBySlugWithDetails (r : cachedPostRepository) (slug : string) :
    M (error + PostWithDetails) :=
  let cacheKey :=
    "post:slug:" +:+ slug in
  let miss : M (error + PostWithDetails) :=
    let* res := FindBySlugWithDetails (cp_baseRepo r) slug in
    match res with
    | inl err => ret (inl err)
    | inr post =>
        let data := default "" (json_Marshal post) in
        let* _ := redis_Set cacheKey data (cp_ttl r) in
        ret (inr post)
    end in
  let* cached := redis_Get cacheKey in
  match cached with
  | Some cached =>
      match json_Unmarshal cached with
      | Some post => ret (inr post)
      | None => miss
      end
  | None => miss
  end.

Definition cachedPost_FindByCategoryWithDetails (r : cachedPostRepository) (categorySlug : string) (limit : Z) (offset : Z) :
    M (error + list PostWithDetails) :=
  let cacheKey :=
    "posts:category:" +:+ categorySlug +:+ ":limit=" +:+ Sprintf_d limit
      +:+ ":offset=" +:+ Sprintf_d offset in
  let miss : M (error + list PostWithDetails) :=
    let* res := FindByCategoryWithDetails (cp_baseRepo r) categorySlug limit offset in
    match res with
    | inl err => ret (inl err)
    | inr posts =>
        let data := default "" (json_Marshal posts) in
        let* _ := redis_Set cacheKey data (cp_ttl r) in
        ret (inr posts)
    end in
  let* cached := redis_Get cacheKey in
  match cached with
  | Some cached =>
      match json_Unmarshal cached with
      | Some posts => ret (inr posts)
      | None => miss
      end
  | None => miss
  end.

Definition cachedPost_FindByTagWithDetails (r : cachedPostRepository) (tagSlug : string) (limit : Z) (offset : Z) :
    M (error + list PostWithDetails) :=
  let cacheKey :=
    "posts:tag:" +:+ tagSlug +:+ ":limit=" +:+ Sprintf_d limit
      +:+ ":offset=" +:+ Sprintf_d offset in
  let miss : M (error + list PostWithDetails) :=
    let* res := FindByTagWithDetails (cp_baseRepo r) tagSlug limit offset in
    match res with
    | inl err => ret (inl err)
    | inr posts =>
        let data := default "" (json_Marshal posts) in
        let* _ := redis_Set cacheKey data (cp_ttl r) in
        ret (inr posts)
    end in
  let* cached := redis_Get cacheKey in
  match cached with
  | Some cached =>
      match json_Unmarshal cached with
      | Some posts => ret (inr posts)
      | None => miss
      end
  | None => miss
  end.

Definition cachedPost_FindFeaturedWithDetails (r : cachedPostRepository) (limit : Z) :
    M (error + list PostWithDetails) :=
  let cacheKey :=
    "posts:featured:limit=" +:+ Sprintf_d limit in
  let miss : M (error + list PostWithDetails) :=
    let* res := FindFeaturedWithDetails (cp_baseRepo r) limit in
    match res with
    | inl err => ret (inl err)
    | inr posts =>
        let data := default "" (json_Marshal posts) in
        let* _ := redis_Set cacheKey data (cp_ttl r) in
        ret (inr posts)
    end in
  let* cached := redis_Get cacheKey in
  match cached with
  | Some cached =>
      match json_Unmarshal cached with
      | Some posts => ret (inr posts)
      | None => miss
      end
  | None => miss
  end.

Definition cachedPost_GetTotalCount (r : cachedPostRepository) :
    M (error + Z) :=
  let cacheKey :=
    "posts:totalcount" in
  let miss : M (error + Z) :=
    let* res := GetTotalCount (cp_baseRepo r) in
    match res with
    | inl err => ret (inl err)
    | inr count =>
        let data := default "" (json_Marshal count) in
        let* _ := redis_Set cacheKey data (cp_ttl r) in
        ret (inr count)
    end in
  let* cached := redis_Get cacheKey in
  match cached with
  | Some cached =>
      match json_Unmarshal cached with
      | Some count => ret (inr count)
      | None => miss
      end
  | None => miss
  end.

Definition cachedPost_IncrementViewCount (r : cachedPostRepository) (postID : Z) :
    M (option error) :=
  let* err := IncrementViewCount (cp_baseRepo r) postID in
  match err with
  | Some err => ret (Some err)
  | None =>
      let* _ := redis_Del [getPostCacheKey postID] in
      let* keys := redis_Keys "posts:*" in
      let* _ := (if (0 <? Z.of_nat (length keys)) then redis_Del keys else ret tt) in
      ret None
  end.

Definition NewCachedPostRepository (baseRepo : PostRepository) : PostRepository :=
  let r := {| cp_baseRepo := baseRepo; cp_ttl := 5 * Minute |} in
  {| FindAllWithDetails := cachedPost_FindAllWithDetails r;
     FindByIDWithDetails := cachedPost_FindByIDWithDetails r;
     FindBySlugWithDetails := cachedPost_FindBySlugWithDetails r;
     FindByCategoryWithDetails := cachedPost_FindByCategoryWithDetails r;
     FindByTagWithDetails := cachedPost_FindByTagWithDetails r;
     FindFeaturedWithDetails := cachedPost_FindFeaturedWithDetails r;
     GetTotalCount := cachedPost_GetTotalCount r;
     IncrementViewCount := cachedPost_IncrementViewCount r |}.

(** ** api/usecase *)

(** [usecase.UserUsecase] *)
Record UserUsecase : Type := {
  GetAllUsers : M (error + list User);
  GetUserByID : Z -> M (error + User);
  CreateUser : string -> string -> option Z -> M (error + User);
  UpdateUser : Z -> option string -> option string -> option Z -> M (error + User);
  DeleteUser : Z -> M (option error)
}.

Record userUsecase : Type := { userRepo : UserRepository }.

Definition userUsecase_GetAllUsers (u : userUsecase) : M (error + list User) :=
  FindAll (userRepo u).

Definition userUsecase_GetUserByID (u : userUsecase) (id : Z) : M (error + User) :=
  FindByID (userRepo u) id.

Definition userUsecase_CreateUser (u : userUsecase) (name email : string)
    (age : option Z) : M (error + User) :=
  let user := mkUser 0 name email age 0 0 in
  let* res := Create (userRepo u) user in
  match res with
  | inl err => ret (inl err)
  | inr user' => ret (inr user')
  end.

Definition userUsecase_UpdateUser (u : userUsecase) (id : Z)
    (name email : option string) (age : option Z) : M (error + User) :=
  let* res := FindByID (userRepo u) id in
  match res with
  | inl err => ret (inl err)
  | inr user =>
      let user1 :=
        match name with
        | Some n => mkUser (User_ID user) n (User_Email user) (User_Age user)
                           (User_CreatedAt user) (User_UpdatedAt user)
        | None => user
        end in
      let user2 :=
        match email with
        | Some e => mkUser (User_ID user1) (User_Name user1) e (User_Age user1)
                           (User_CreatedAt user1) (User_UpdatedAt user1)
        | None => user1
        end in
      let user3 :=
        match age with
        | Some a => mkUser (User_ID user2) (User_Name user2) (User_Email user2) (Some a)
                           (User_CreatedAt user2) (User_UpdatedAt user2)
        | None => user2
        end in
      let* res' := Update (userRepo u) user3 in
      match res' with
      | inl err => ret (inl err)
      | inr user' => ret (inr user')
      end
  end.

Definition userUsecase_DeleteUser (u : userUsecase) (id : Z) : M (option error) :=
  Delete (userRepo u) id.

Definition NewUserUsecase (userRepo : UserRepository) : UserUsecase :=
  let u := {| userRepo := userRepo |} in
  {| GetAllUsers := userUsecase_GetAllUsers u;
     GetUserByID := userUsecase_GetUserByID u;
     CreateUser := userUsecase_CreateUser u;
     UpdateUser := userUsecase_UpdateUser u;
     DeleteUser := userUsecase_DeleteUser u |}.

(** [usecase.PostUsecase] *)
Record PostUsecase : Type := {
  GetPosts : Z -> Z -> M (error + list PostWithDetails * Z);
  GetPostByID : Z -> M (error + PostWithDetails);
  GetPostBySlug : string -> M (error + PostWithDetails);
  GetPostsByCategory : string -> Z -> Z -> M (error + list PostWithDetails);
  GetPostsByTag : string -> Z -> Z -> M (error + list PostWithDetails);
  GetFeaturedPosts : Z -> M (error + list PostWithDetails)
}.

Record postUsecase : Type := { postRepo : PostRepository }.

Definition postUsecase_GetPosts (u : postUsecase) (page pageSize : Z) :
    M (error + list PostWithDetails * Z) :=
  let page := if page <? 1 then 1 else page in
  let pageSize := if (pageSize <? 1) || (100 <? pageSize) then 20 else pageSize in
  let offset := GoInt.mul (GoInt.sub page 1) pageSize in
  let* res := FindAllWithDetails (postRepo u) pageSize offset in
  match res with
  | inl err => ret (inl (Errorf_w "failed to get posts" err))
  | inr posts =>
      let* res' := GetTotalCount (postRepo u) in
      match res' with
      | inl err => ret (inl (Errorf_w "failed to get total count" err))
      | inr total => ret (inr (posts, total))
      end
  end.

Definition postUsecase_GetPostByID (u : postUsecase) (id : Z) :
    M (error + PostWithDetails) :=
  if id <=? 0 then ret (inl (errors_New ("invalid post ID: " +:+ Sprintf_d id)))
  else
    let* res := FindByIDWithDetails (postRepo u) id in
    match res with
    | inl err => ret (inl (Errorf_w "failed to get post" err))
    | inr post =>
        let* _ := go (IncrementViewCount (postRepo u) id) in
        ret (inr post)
    end.

Definition postUsecase_GetPostBySlug (u : postUsecase) (slug : string) :
    M (error + PostWithDetails) :=
  if String.eqb slug "" then ret (inl (errors_New "slug cannot be empty"))
  else
    let* res := FindBySlugWithDetails (postRepo u) slug in
    match res with
    | inl err => ret (inl (Errorf_w "failed to get post" err))
    | inr post =>
        let* _ := go (IncrementViewCount (postRepo u) (Post_ID (PWD_Post post))) in
        ret (inr post)
    end.

Definition postUsecase_GetPostsByCategory (u : postUsecase) (categorySlug : string)
    (page pageSize : Z) : M (error + list PostWithDetails) :=
  if String.eqb categorySlug "" then ret (inl (errors_New "category slug cannot be empty"))
  else
    let page := if page <? 1 then 1 else page in
    let pageSize := if (pageSize <? 1) || (100 <? pageSize) then 20 else pageSize in
    let offset := GoInt.mul (GoInt.sub page 1) pageSize in
    let* res := FindByCategoryWithDetails (postRepo u) categorySlug pageSize offset in
    match res with
    | inl err => ret (inl (Errorf_w "failed to get posts by category" err))
    | inr posts => ret (inr posts)
    end.

Definition postUsecase_GetPostsByTag (u : postUsecase) (tagSlug : string)
    (page pageSize : Z) : M (error + list PostWithDetails) :=
  if String.eqb tagSlug "" then ret (inl (errors_New "tag slug cannot be empty"))
  else
    let page := if page <? 1 then 1 else page in
    let pageSize := if (pageSize <? 1) || (100 <? pageSize) then 20 else pageSize in
    let offset := GoInt.mul (GoInt.sub page 1) pageSize in
    let* res := FindByTagWithDetails (postRepo u) tagSlug pageSize offset in
    match res with
    | inl err => ret (inl (Errorf_w "failed to get posts by tag" err))
    | inr posts => ret (inr posts)
    end.

Definition postUsecase_GetFeaturedPosts (u : postUsecase) (limit : Z) :
    M (error + list PostWithDetails) :=
  let limit := if (limit <? 1) || (50 <? limit) then 10 else limit in
  let* res := FindFeaturedWithDetails (postRepo u) limit in
  match res with
  | inl err => ret (inl (Errorf_w "failed to get featured posts" err))
  | inr posts => ret (inr posts)
  end.

Definition NewPostUsecase (postRepo : PostRepository) : PostUsecase :=
  let u := {| postRepo := postRepo |} in
  {| GetPosts := postUsecase_GetPosts u;
     GetPostByID := postUsecase_GetPostByID u;
     GetPostBySlug := postUsecase_GetPostBySlug u;
     GetPostsByCategory := postUsecase_GetPostsByCategory u;
     GetPostsByTag := postUsecase_GetPostsByTag u;
     GetFeaturedPosts := postUsecase_GetFeaturedPosts u |}.

(** ** api/interfaces/handler *)

(** Modelled from the spec: the types of the generated package [gen]
    (OpenAPI code generation output) are not among the sources.  The bypass
    parameter is "a single boolean-like query parameter", here the optional
    boolean [NoCache] the handlers test; the request bodies carry the fields
    the handlers read. *)
Record CreateUserRequest : Type := {
  CreateUserRequest_Name : string;
  CreateUserRequest_Email : string;
  CreateUserRequest_Age : option Z
}.

Record UpdateUserRequest : Type := {
  UpdateUserRequest_Name : option string;
  UpdateUserRequest_Email : option string;
  UpdateUserRequest_Age : option Z
}.


(** What a handler sees of the request ([echo.Context] / [HTTPContext]):
    query parameters (empty string when absent), path parameters, and the
    outcome of [Bind] at the two request types ([None]: a bind error). *)
Record Request : Type := {
  QueryParam : string -> string;
  Param : string -> string;
  Bind_CreateUserRequest : option CreateUserRequest;
  Bind_UpdateUserRequest : option UpdateUserRequest
}.

Inductive ResponseBody : Type :=
| NoContent
| ErrorMessage (message : string)
| UsersJSON (users : list User)
| UserJSON (user : User)
| PostsPageJSON (posts : list PostWithDetails) (total page pageSize : Z)
| PostsJSON (posts : list PostWithDetails)
| PostJSON (post : PostWithDetails).

Record Response : Type := { status : Z; body : ResponseBody }.

Definition JSON_response (code : Z) (data : ResponseBody) : M Response :=
  ret {| status := code; body := data |}.

Definition StatusOK : Z := 200.
Definition StatusCreated : Z := 201.
Definition StatusNoContent : Z := 204.
Definition StatusBadRequest : Z := 400.
Definition StatusNotFound : Z := 404.
Definition StatusInternalServerError : Z := 500.

(** *** UserHandler: the Echo handler with the query-parameter selector *)

Record UserHandler : Type := {
  uh_userUsecase : UserUsecase;
  uh_directUserUsecase : UserUsecase
}.

Definition NewUserHandler (userUsecase directUserUsecase : UserUsecase) : UserHandler :=
  {| uh_userUsecase := userUsecase; uh_directUserUsecase := directUserUsecase |}.

Definition UserHandler_selectUsecase (h : UserHandler) (ctx : Request) : UserUsecase :=
  let noCache := QueryParam ctx "no_cache" in
  if String.eqb noCache "true" || String.eqb noCache "1"
  then uh_directUserUsecase h
  else uh_userUsecase h.

Definition UserHandler_GetUsers (h : UserHandler) (ctx : Request) : M Response :=
  let uc := UserHandler_selectUsecase h ctx in
  let* res := GetAllUsers uc in
  match res with
  | inl _ => JSON_response StatusInternalServerError (ErrorMessage "Failed to retrieve users")
  | inr users => JSON_response StatusOK (UsersJSON users)
  end.

Definition UserHandler_GetUserById (h : UserHandler) (ctx : Request) (id : Z) : M Response :=
  let uc := UserHandler_selectUsecase h ctx in
  let* res := GetUserByID uc id in
  match res with
  | inl err =>
      if errors_Is_ErrNoRows err
      then JSON_response StatusNotFound (ErrorMessage "User not found")
      else JSON_response StatusInternalServerError (ErrorMessage "Failed to retrieve user")
  | inr user => JSON_response StatusOK (UserJSON user)
  end.

Definition UserHandler_CreateUser (h : UserHandler) (ctx : Request) : M Response :=
  match Bind_CreateUserRequest ctx with
  | None => JSON_response StatusBadRequest (ErrorMessage "Invalid request body")
  | Some req =>
      let uc := UserHandler_selectUsecase h ctx in
      let* res := CreateUser uc (CreateUserRequest_Name req)
                    (CreateUserRequest_Email req) (CreateUserRequest_Age req) in
      match res with
      | inl _ => JSON_response StatusInternalServerError (ErrorMessage "Failed to create user")
      | inr user => JSON_response StatusCreated (UserJSON user)
      end
  end.

Definition UserHandler_UpdateUser (h : UserHandler) (ctx : Request) (id : Z) : M Response :=
  match Bind_UpdateUserRequest ctx with
  | None => JSON_response StatusBadRequest (ErrorMessage "Invalid request body")
  | Some req =>
      let email := UpdateUserRequest_Email req in
      let uc := UserHandler_selectUsecase h ctx in
      let* res := UpdateUser uc id (UpdateUserRequest_Name req) email
                    (UpdateUserRequest_Age req) in
      match res with
      | inl err =>
          if errors_Is_ErrNoRows err
          then JSON_response StatusNotFound (ErrorMessage "User not found")
          else JSON_response StatusInternalServerError (ErrorMessage "Failed to update user")
      | inr user => JSON_response StatusOK (UserJSON user)
      end
  end.

Definition UserHandler_DeleteUser (h : UserHandler) (ctx : Request) (id : Z) : M Response :=
  let uc := UserHandler_selectUsecase h ctx in
  let* err := DeleteUser uc id in
  match err with
  | Some err =>
      if errors_Is_ErrNoRows err
      then JSON_response StatusNotFound (ErrorMessage "User not found")
      else JSON_response StatusInternalServerError (ErrorMessage "Failed to delete user")
  | None => JSON_response StatusNoContent NoContent
  end.

(** *** UserHandlerV2: the framework-independent handler *)

Record UserHandlerV2 : Type := {
  uh2_userUsecase : UserUsecase;
  uh2_directUserUsecase : UserUsecase
}.

Definition NewUserHandlerV2 (userUsecase directUserUsecase : UserUsecase) : UserHandlerV2 :=
  {| uh2_userUsecase := userUsecase; uh2_directUserUsecase := directUserUsecase |}.



Definition UserHandlerV2_CreateUser (h : UserHandlerV2) (ctx : Request) : M Response :=
  match Bind_CreateUserRequest ctx with
  | None => JSON_response StatusBadRequest (ErrorMessage "Invalid request body")
  | Some req =>
      let uc := uh2_userUsecase h in
      let* res := CreateUser uc (CreateUserRequest_Name req)
                    (CreateUserRequest_Email req) (CreateUserRequest_Age req) in
      match res with
      | inl _ => JSON_response StatusInternalServerError (ErrorMessage "Failed to create user")
      | inr user => JSON_response StatusCreated (UserJSON user)
      end
  end.

Definition UserHandlerV2_UpdateUser (h : UserHandlerV2) (ctx : Request) (id : Z) : M Response :=
  match Bind_UpdateUserRequest ctx with
  | None => JSON_response StatusBadRequest (ErrorMessage "Invalid request body")
  | Some req =>
      let email := UpdateUserRequest_Email req in
      let uc := uh2_userUsecase h in
      let* res := UpdateUser uc id (UpdateUserRequest_Name req) email
                    (UpdateUserRequest_Age req) in
      match res with
      | inl err =>
          if errors_Is_ErrNoRows err
          then JSON_response StatusNotFound (ErrorMessage "User not found")
          else JSON_response StatusInternalServerError (ErrorMessage "Failed to update user")
      | inr user => JSON_response StatusOK (UserJSON user)
      end
  end.

Definition UserHandlerV2_DeleteUser (h : UserHandlerV2) (ctx : Request) (id : Z) : M Response :=
  let uc := uh2_userUsecase h in
  let* err := DeleteUser uc id in
  match err with
  | Some err =>
      if errors_Is_ErrNoRows err
      then JSON_response StatusNotFound (ErrorMessage "User not found")
      else JSON_response StatusInternalServerError (ErrorMessage "Failed to delete user")
  | None => JSON_response StatusNoContent NoContent
  end.

(** *** PostHandlerV2 and its Echo bridge *)

Record PostHandlerV2 : Type := {
  ph_postUsecase : PostUsecase;
  ph_directPostUsecase : PostUsecase
}.

Definition NewPostHandlerV2 (postUsecase directPostUsecase : PostUsecase) : PostHandlerV2 :=
  {| ph_postUsecase := postUsecase; ph_directPostUsecase := directPostUsecase |}.

Definition PostHandlerV2_selectUsecase (h : PostHandlerV2) (noCache : bool) : PostUsecase :=
  if noCache then ph_directPostUsecase h else ph_postUsecase h.

Definition PostHandlerV2_GetPosts (h : PostHandlerV2) (ctx : Request)
    (page pageSize : Z) (noCache : bool) : M Response :=
  let uc := PostHandlerV2_selectUsecase h noCache in
  let* res := GetPosts uc page pageSize in
  match res with
  | inl _ => JSON_response StatusInternalServerError (ErrorMessage "Failed to retrieve posts")
  | inr (posts, total) => JSON_response StatusOK (PostsPageJSON posts total page pageSize)
  end.

Definition PostHandlerV2_GetPostByID (h : PostHandlerV2) (ctx : Request)
    (id : Z) (noCache : bool) : M Response :=
  let uc := PostHandlerV2_selectUsecase h noCache in
  let* res := GetPostByID uc id in
  match res with
  | inl _ => JSON_response StatusNotFound (ErrorMessage "Post not found")
  | inr post => JSON_response StatusOK (PostJSON post)
  end.

Definition PostHandlerV2_GetPostBySlug (h : PostHandlerV2) (ctx : Request)
    (slug : string) (noCache : bool) : M Response :=
  if String.eqb slug "" then JSON_response StatusBadRequest (ErrorMessage "Slug is required")
  else
    let uc := PostHandlerV2_selectUsecase h noCache in
    let* res := GetPostBySlug uc slug in
    match res with
    | inl _ => JSON_response StatusNotFound (ErrorMessage "Post not found")
    | inr post => JSON_response StatusOK (PostJSON post)
    end.

Definition PostHandlerV2_GetPostsByCategory (h : PostHandlerV2) (ctx : Request)
    (slug : string) (page pageSize : Z) (noCache : bool) : M Response :=
  if String.eqb slug ""
  then JSON_response StatusBadRequest (ErrorMessage "Category slug is required")
  else
    let uc := PostHandlerV2_selectUsecase h noCache in
    let* res := GetPostsByCategory uc slug page pageSize in
    match res with
    | inl _ => JSON_response StatusInternalServerError (ErrorMessage "Failed to retrieve posts")
    | inr posts => JSON_response StatusOK (PostsJSON posts)
    end.

Definition PostHandlerV2_GetPostsByTag (h : PostHandlerV2) (ctx : Request)
    (slug : string) (page pageSize : Z) (noCache : bool) : M Response :=
  if String.eqb slug ""
  then JSON_response StatusBadRequest (ErrorMessage "Tag slug is required")
  else
    let uc := PostHandlerV2_selectUsecase h noCache in
    let* res := GetPostsByTag uc slug page pageSize in
    match res with
    | inl _ => JSON_response StatusInternalServerError (ErrorMessage "Failed to retrieve posts")
    | inr posts => JSON_response StatusOK (PostsJSON posts)
    end.

Definition PostHandlerV2_GetFeaturedPosts (h : PostHandlerV2) (ctx : Request)
    (limit : Z) (noCache : bool) : M Response :=
  let uc := PostHandlerV2_selectUsecase h noCache in
  let* res := GetFeaturedPosts uc limit in
  match res with
  | inl _ =>
      JSON_response StatusInternalServerError (ErrorMessage "Failed to retrieve featured posts")
  | inr posts => JSON_response StatusOK (PostsJSON posts)
  end.

Record PostHandlerBridge : Type := { phb_handler : PostHandlerV2 }.

Definition NewPostHandlerBridge (handler : PostHandlerV2) : PostHandlerBridge :=
  {| phb_handler := handler |}.

Definition parseNoCache (c : Request) : bool :=
  let noCache := QueryParam c "no_cache" in
  String.eqb noCache "true" || String.eqb noCache "1".

Definition PostHandlerBridge_GetPosts (b : PostHandlerBridge) (c : Request) : M Response :=
  let page := Atoi_value (QueryParam c "page") in
  let page := if page <? 1 then 1 else page in
  let pageSize := Atoi_value (QueryParam c "pageSize") in
  let pageSize := if pageSize <? 1 then 20 else pageSize in
  let noCache := parseNoCache c in
  PostHandlerV2_GetPosts (phb_handler b) c page pageSize noCache.

Definition PostHandlerBridge_GetPostByID (b : PostHandlerBridge) (c : Request) : M Response :=
  let '(id, ok) := ParseInt (Param c "id") in
  if negb ok then JSON_response 400 (ErrorMessage "Invalid post ID")
  else
    let noCache := parseNoCache c in
    PostHandlerV2_GetPostByID (phb_handler b) c id noCache.

Definition PostHandlerBridge_GetPostBySlug (b : PostHandlerBridge) (c : Request) : M Response :=
  let slug := Param c "slug" in
  let noCache := parseNoCache c in
  PostHandlerV2_GetPostBySlug (phb_handler b) c slug noCache.

Definition PostHandlerBridge_GetPostsByCategory (b : PostHandlerBridge) (c : Request) :
    M Response :=
  let slug := Param c "slug" in
  let page := Atoi_value (QueryParam c "page") in
  let page := if page <? 1 then 1 else page in
  let pageSize := Atoi_value (QueryParam c "pageSize") in
  let pageSize := if pageSize <? 1 then 20 else pageSize in
  let noCache := parseNoCache c in
  PostHandlerV2_GetPostsByCategory (phb_handler b) c slug page pageSize noCache.

Definition PostHandlerBridge_GetPostsByTag (b : PostHandlerBridge) (c : Request) :
    M Response :=
  let slug := Param c "slug" in
  let page := Atoi_value (QueryParam c "page") in
  let page := if page <? 1 then 1 else page in
  let pageSize := Atoi_value (QueryParam c "pageSize") in
  let pageSize := if pageSize <? 1 then 20 else pageSize in
  let noCache := parseNoCache c in
  PostHandlerV2_GetPostsByTag (phb_handler b) c slug page pageSize noCache.

Definition PostHandlerBridge_GetFeaturedPosts (b : PostHandlerBridge) (c : Request) :
    M Response :=
  let limit := Atoi_value (QueryParam c "limit") in
  let limit := if limit <? 1 then 10 else limit in
  let noCache := parseNoCache c in
  PostHandlerV2_GetFeaturedPosts (phb_handler b) c limit noCache.

(** ** cmd/main.go: the wiring *)

Definition baseUserRepo : UserRepository := mysql_NewUserRepository.
Definition cachedUserRepo : UserRepository := NewCachedUserRepository baseUserRepo.
Definition main_userUsecase : UserUsecase := NewUserUsecase cachedUserRepo.
Definition main_directUserUsecase : UserUsecase := NewUserUsecase baseUserRepo.
Definition main_userHandlerV2 : UserHandlerV2 :=
  NewUserHandlerV2 main_userUsecase main_directUserUsecase.
(** The Echo handler given the same two usecases, as its constructor
    documents them. *)
Definition main_userHandler : UserHandler :=
  NewUserHandler main_userUsecase main_directUserUsecase.

Definition basePostRepo : PostRepository := mysql_NewPostRepository.
Definition cachedPostRepo : PostRepository := NewCachedPostRepository basePostRepo.
Definition main_postUsecase : PostUsecase := NewPostUsecase cachedPostRepo.
Definition main_directPostUsecase : PostUsecase := NewPostUsecase basePostRepo.
Definition main_postHandlerV2 : PostHandlerV2 :=
  NewPostHandlerV2 main_postUsecase main_directPostUsecase.
Definition main_postHandler : PostHandlerBridge := NewPostHandlerBridge main_postHandlerV2.

(** ** The read and write methods, indexed by the call *)

Definition mapM {A B : Type} (f : A -> B) (m : M A) : M B :=
  fun w => mkRes (f (value (m w))) (world (m w)) (events (m w)) (spawned (m w)).

Definition inr_map {A B : Type} (f : A -> B) (r : error + A) : error + B :=
  match r with inl e => inl e | inr a => inr (f a) end.

(** The key each cached read method derives from its parameters. *)
Definition cacheKey (q : ReadOp) : string :=
  match q with
  | UserFindAll => "users:all"
  | UserFindByID id => getCacheKey id
  | PostFindAllWithDetails limit offset =>
      "posts:all:limit=" +:+ Sprintf_d limit +:+ ":offset=" +:+ Sprintf_d offset
  | PostFindByIDWithDetails id => getPostCacheKey id
  | PostFindBySlugWithDetails slug => "post:slug:" +:+ slug
  | PostFindByCategoryWithDetails categorySlug limit offset =>
      "posts:category:" +:+ categorySlug +:+ ":limit=" +:+ Sprintf_d limit
      +:+ ":offset=" +:+ Sprintf_d offset
  | PostFindByTagWithDetails tagSlug limit offset =>
      "posts:tag:" +:+ tagSlug +:+ ":limit=" +:+ Sprintf_d limit
      +:+ ":offset=" +:+ Sprintf_d offset
  | PostFindFeaturedWithDetails limit => "posts:featured:limit=" +:+ Sprintf_d limit
  | PostGetTotalCount => "posts:totalcount"
  end.

(** The read method of a pair of repositories that answers call [q]. *)
Definition repoRead (ur : UserRepository) (pr : PostRepository) (q : ReadOp) :
    M (error + Value) :=
  match q with
  | UserFindAll => mapM (inr_map VUsers) (FindAll ur)
  | UserFindByID id => mapM (inr_map VUser) (FindByID ur id)
  | PostFindAllWithDetails limit offset =>
      mapM (inr_map VPosts) (FindAllWithDetails pr limit offset)
  | PostFindByIDWithDetails id => mapM (inr_map VPost) (FindByIDWithDetails pr id)
  | PostFindBySlugWithDetails slug => mapM (inr_map VPost) (FindBySlugWithDetails pr slug)
  | PostFindByCategoryWithDetails categorySlug limit offset =>
      mapM (inr_map VPosts) (FindByCategoryWithDetails pr categorySlug limit offset)
  | PostFindByTagWithDetails tagSlug limit offset =>
      mapM (inr_map VPosts) (FindByTagWithDetails pr tagSlug limit offset)
  | PostFindFeaturedWithDetails limit =>
      mapM (inr_map VPosts) (FindFeaturedWithDetails pr limit)
  | PostGetTotalCount => mapM (inr_map VCount) (GetTotalCount pr)
  end.

Definition cachedRead : ReadOp -> M (error + Value) := repoRead cachedUserRepo cachedPostRepo.
Definition directRead : ReadOp -> M (error + Value) := repoRead baseUserRepo basePostRepo.

(** What the data source itself answers to call [q] in state [d]. *)
Definition dsRead (q : ReadOp) (d : DB) : error + Value :=
  match q with
  | UserFindAll => inr_map VUsers (ds_user_FindAll d)
  | UserFindByID id => inr_map VUser (ds_user_FindByID d id)
  | PostFindAllWithDetails limit offset =>
      inr_map VPosts (ds_post_FindAllWithDetails d limit offset)
  | PostFindByIDWithDetails id => inr_map VPost (ds_post_FindByIDWithDetails d id)
  | PostFindBySlugWithDetails slug => inr_map VPost (ds_post_FindBySlugWithDetails d slug)
  | PostFindByCategoryWithDetails categorySlug limit offset =>
      inr_map VPosts (ds_post_FindByCategoryWithDetails d categorySlug limit offset)
  | PostFindByTagWithDetails tagSlug limit offset =>
      inr_map VPosts (ds_post_FindByTagWithDetails d tagSlug limit offset)
  | PostFindFeaturedWithDetails limit =>
      inr_map VPosts (ds_post_FindFeaturedWithDetails d limit)
  | PostGetTotalCount => inr_map VCount (ds_post_GetTotalCount d)
  end.

(** Decoding a payload at the result type of call [q]. *)
Definition unmarshalFor (q : ReadOp) (data : string) : option Value :=
  match q with
  | UserFindAll => VUsers <$> json_Unmarshal data
  | UserFindByID _ => VUser <$> json_Unmarshal data
  | PostFindAllWithDetails _ _ => VPosts <$> json_Unmarshal data
  | PostFindByIDWithDetails _ => VPost <$> json_Unmarshal data
  | PostFindBySlugWithDetails _ => VPost <$> json_Unmarshal data
  | PostFindByCategoryWithDetails _ _ _ => VPosts <$> json_Unmarshal data
  | PostFindByTagWithDetails _ _ _ => VPosts <$> json_Unmarshal data
  | PostFindFeaturedWithDetails _ => VPosts <$> json_Unmarshal data
  | PostGetTotalCount => VCount <$> json_Unmarshal data
  end.

Definition marshalValue (v : Value) : option string :=
  match v with
  | VUsers users => json_Marshal users
  | VUser user => json_Marshal user
  | VPosts posts => json_Marshal posts
  | VPost post => json_Marshal post
  | VCount count => json_Marshal count
  end.

(** The cached payload under [q]'s key, when the store answers and the
    payload decodes: the cache hit. *)
Definition cacheHit (q : ReadOp) (w : World) : option Value :=
  if next_fault w then None
  else
    match kv w !! cacheKey q with
    | Some e => unmarshalFor q (payload e)
    | None => None
    end.

(** The write method of a pair of repositories that answers call [q]. *)
Definition repoWrite (ur : UserRepository) (pr : PostRepository) (q : WriteOp) :
    M (option error) :=
  match q with
  | UserCreate user => mapM err_of (Create ur user)
  | UserUpdate user => mapM err_of (Update ur user)
  | UserDelete id => Delete ur id
  | PostIncrementViewCount postID => IncrementViewCount pr postID
  end.

Definition cachedWrite : WriteOp -> M (option error) := repoWrite cachedUserRepo cachedPostRepo.

(** The error of the data source's own write, and the database it leaves. *)
Definition dsWrite (q : WriteOp) (d : DB) : option error * DB :=
  match q with
  | UserCreate user => (err_of (fst (ds_user_Create d user)), snd (ds_user_Create d user))
  | UserUpdate user => (err_of (fst (ds_user_Update d user)), snd (ds_user_Update d user))
  | UserDelete id => ds_user_Delete d id
  | PostIncrementViewCount postID => ds_post_IncrementViewCount d postID
  end.

(** [user.ID] after the data source's [Update] returned. *)
Definition updated_ID (d : DB) (user : User) : Z :=
  match fst (ds_user_Update d user) with
  | inr user' => User_ID user'
  | inl _ => User_ID user
  end.

(** [user.ID] after the data source's [Create] returned. *)
Definition created_ID (d : DB) (user : User) : Z :=
  match fst (ds_user_Create d user) with
  | inr user' => User_ID user'
  | inl _ => User_ID user
  end.

(** The keys each write method deletes after a successful write. *)
Definition invalidated (q : WriteOp) (d : DB) (k : string) : bool :=
  match q with
  | UserCreate _ => String.eqb k "users:all"
  | UserUpdate user =>
      String.eqb k (getCacheKey (updated_ID d user)) || String.eqb k "users:all"
  | UserDelete id => String.eqb k (getCacheKey id) || String.eqb k "users:all"
  | PostIncrementViewCount postID =>
      String.eqb k (getPostCacheKey postID) || glob_match "posts:*" k
  end.

(** The invalidation set as the specification words it: the entity's own key
    and the list key for every user write. *)
Definition invalidated_as_specified (q : WriteOp) (d : DB) (k : string) : bool :=
  match q with
  | UserCreate user =>
      String.eqb k (getCacheKey (created_ID d user)) || String.eqb k "users:all"
  | UserUpdate user =>
      String.eqb k (getCacheKey (updated_ID d user)) || String.eqb k "users:all"
  | UserDelete id => String.eqb k (getCacheKey id) || String.eqb k "users:all"
  | PostIncrementViewCount postID =>
      String.eqb k (getPostCacheKey postID) || glob_match "posts:*" k
  end.

(** ** The read endpoints that take the [no_cache] query parameter *)

Inductive ReadEndpoint : Type :=
| GET_users
| GET_users_id (id : Z)
| GET_posts
| GET_posts_featured
| GET_posts_id
| GET_posts_slug
| GET_posts_category
| GET_posts_tag.

Definition serveRead (uh : UserHandler) (pb : PostHandlerBridge) (ep : ReadEndpoint)
    (c : Request) : M Response :=
  match ep with
  | GET_users => UserHandler_GetUsers uh c
  | GET_users_id id => UserHandler_GetUserById uh c id
  | GET_posts => PostHandlerBridge_GetPosts pb c
  | GET_posts_featured => PostHandlerBridge_GetFeaturedPosts pb c
  | GET_posts_id => PostHandlerBridge_GetPostByID pb c
  | GET_posts_slug => PostHandlerBridge_GetPostBySlug pb c
  | GET_posts_category => PostHandlerBridge_GetPostsByCategory pb c
  | GET_posts_tag => PostHandlerBridge_GetPostsByTag pb c
  end.

(** The user write endpoints, for either user handler. *)
Inductive WriteEndpoint : Type :=
| POST_users
| PUT_users_id (id : Z)
| DELETE_users_id (id : Z).

Definition serveWrite (uh : UserHandler) (ep : WriteEndpoint) (c : Request) : M Response :=
  match ep with
  | POST_users => UserHandler_CreateUser uh c
  | PUT_users_id id => UserHandler_UpdateUser uh c id
  | DELETE_users_id id => UserHandler_DeleteUser uh c id
  end.

Definition serveWriteV2 (uh : UserHandlerV2) (ep : WriteEndpoint) (c : Request) : M Response :=
  match ep with
  | POST_users => UserHandlerV2_CreateUser uh c
  | PUT_users_id id => UserHandlerV2_UpdateUser uh c id
  | DELETE_users_id id => UserHandlerV2_DeleteUser uh c id
  end.


(** No command reaches the cache store: neither in the request itself nor
    in any goroutine it started, wherever that goroutine runs. *)
Definition no_redis_events (evs : list Event) : Prop :=
  Forall (fun e => is_redis_event e = false) evs.

Definition no_ds_events (evs : list Event) : Prop :=
  Forall (fun e => is_ds_event e = false) evs.




(** The pagination of the post list operations as specified:
    the limit and the offset as mathematical integers. *)
Definition specified_limit (pageSize : Z) : Z :=
  if (1 <=? pageSize) && (pageSize <=? 100) then pageSize else 20.

Definition specified_offset (page pageSize : Z) : Z :=
  ((if 1 <=? page then page else 1) - 1) * specified_limit pageSize.

(** The pattern every cached read method instantiates: look the key up,
    return the decoded payload on a hit, otherwise ask the wrapped
    repository and store what it returned. *)
Definition readThrough {V : Type} `{JSON V} (cacheKey : string) (ttl : Z)
    (base : M (error + V)) : M (error + V) :=
  let miss : M (error + V) :=
    let* res := base in
    match res with
    | inl err => ret (inl err)
    | inr v =>
        let data := default "" (json_Marshal v) in
        let* _ := redis_Set cacheKey data ttl in
        ret (inr v)
    end in
  let* cached := redis_Get cacheKey in
  match cached with
  | Some cached =>
      match json_Unmarshal cached with
      | Some v => ret (inr v)
      | None => miss
      end
  | None => miss
  end.

(** The world a successful miss leaves: the [GET] and the [SET] each took
    their turn on the connection. *)
Definition populated (key data : string) (ttl : Z) (w : World) : World :=
  world (redis_Set key data ttl (after_command w)).

(** The commands a successful write sends to the cache store, started in
    world [w1] (the world after the data source write). *)
Definition invalidation_commands (q : WriteOp) (d : DB) (w1 : World) : list Event :=
  match q with
  | UserCreate _ => [RedisDel ["users:all"]]
  | UserUpdate user =>
      [RedisDel [getCacheKey (updated_ID d user)]; RedisDel ["users:all"]]
  | UserDelete id => [RedisDel [getCacheKey id]; RedisDel ["users:all"]]
  | PostIncrementViewCount postID =>
      let w2 := world (redis_Del [getPostCacheKey postID] w1) in
      let keys := value (redis_Keys "posts:*" w2) in
      RedisDel [getPostCacheKey postID] :: RedisKeys "posts:*" ::
      (if 0 <? Z.of_nat (length keys) then [RedisDel keys] else [])
  end.

(** The keyspace the [IncrementViewCount] invalidation leaves, started in
    world [w1] (the world after the data source write). *)
Definition after_post_invalidation (postID : Z) (w1 : World) : World :=
  let w2 := world (redis_Del [getPostCacheKey postID] w1) in
  let keys := value (redis_Keys "posts:*" w2) in
  let w3 := world (redis_Keys "posts:*" w2) in
  if 0 <? Z.of_nat (length keys) then world (redis_Del keys w3) else w3.

End Repositories.

(** ** A test double: an in-memory data source and table-driven codecs

    The in-memory user repository follows [mockUserRepository] of the usecase
    tests ([Create] numbers the new user [len(users) + 1]); an [outage]
    makes every call fail with that error. *)

Module Mock.

Record MockDB : Type := {
  users : list User;
  posts : list PostWithDetails;
  outage : option error
}.

Definition with_users (us : list User) (d : MockDB) : MockDB :=
  {| users := us; posts := posts d; outage := outage d |}.
Definition with_posts (ps : list PostWithDetails) (d : MockDB) : MockDB :=
  {| users := users d; posts := ps; outage := outage d |}.

Definition query {A : Type} (d : MockDB) (r : error + A) : error + A :=
  match outage d with Some e => inl e | None => r end.

Definition find_user (id : Z) (us : list User) : error + User :=
  match List.find (fun u => User_ID u =? id) us with
  | Some u => inr u
  | None => inl ErrNoRows
  end.

Definition find_post (f : PostWithDetails -> bool) (ps : list PostWithDetails) :
    error + PostWithDetails :=
  match List.find f ps with
  | Some p => inr p
  | None => inl (Errorf_w "failed to query post" ErrNoRows)
  end.

Definition page (limit offset : Z) (ps : list PostWithDetails) : list PostWithDetails :=
  firstn (Z.to_nat limit) (skipn (Z.to_nat offset) ps).

Definition bump (p : PostWithDetails) : PostWithDetails :=
  let q := PWD_Post p in
  mkPostWithDetails
    (mkPost (Post_ID q) (Post_UserID q) (Post_CategoryID q) (Post_Title q) (Post_Slug q)
            (Post_Content q) (Post_Excerpt q) (Post_Status q) (Post_PublishedAt q)
            (Post_ViewCount q + 1) (Post_LikeCount q) (Post_CommentCount q)
            (Post_IsFeatured q) (Post_CreatedAt q) (Post_UpdatedAt q))
    (PWD_AuthorUsername p) (PWD_AuthorDisplayName p) (PWD_AuthorAvatarURL p)
    (PWD_CategoryName p) (PWD_CategorySlug p) (PWD_Tags p) (PWD_LatestComments p).

Definition has_tag (slug : string) (p : PostWithDetails) : bool :=
  existsb (fun t => String.eqb (Tag_Slug t) slug) (PWD_Tags p).

Definition in_category (slug : string) (p : PostWithDetails) : bool :=
  match PWD_CategorySlug p with Some s => String.eqb s slug | None => false end.

Definition ds : DataSource := {|
  DB := MockDB;
  ds_user_FindAll := fun d => query d (inr (users d));
  ds_user_FindByID := fun d id => query d (find_user id (users d));
  ds_user_Create := fun d user =>
    match outage d with
    | Some e => (inl e, d)
    | None =>
        let user' := mkUser (Z.of_nat (length (users d)) + 1) (User_Name user)
                            (User_Email user) (User_Age user)
                            (User_CreatedAt user) (User_UpdatedAt user) in
        (inr user', with_users (users d ++ [user']) d)
    end;
  ds_user_Update := fun d user =>
    match outage d with
    | Some e => (inl e, d)
    | None =>
        (inr user,
         with_users (map (fun u => if User_ID u =? User_ID user then user else u)
                         (users d)) d)
    end;
  ds_user_Delete := fun d id =>
    match outage d with
    | Some e => (Some e, d)
    | None => (None, with_users (List.filter (fun u => negb (User_ID u =? id)) (users d)) d)
    end;
  ds_post_FindAllWithDetails := fun d limit offset =>
    query d (inr (page limit offset (posts d)));
  ds_post_FindByIDWithDetails := fun d id =>
    query d (find_post (fun p => Post_ID (PWD_Post p) =? id) (posts d));
  ds_post_FindBySlugWithDetails := fun d slug =>
    query d (find_post (fun p => String.eqb (Post_Slug (PWD_Post p)) slug) (posts d));
  ds_post_FindByCategoryWithDetails := fun d slug limit offset =>
    query d (inr (page limit offset (List.filter (in_category slug) (posts d))));
  ds_post_FindByTagWithDetails := fun d slug limit offset =>
    query d (inr (page limit offset (List.filter (has_tag slug) (posts d))));
  ds_post_FindFeaturedWithDetails := fun d limit =>
    query d (inr (firstn (Z.to_nat limit)
                         (List.filter (fun p => Post_IsFeatured (PWD_Post p)) (posts d))));
  ds_post_GetTotalCount := fun d => query d (inr (Z.of_nat (length (posts d))));
  ds_post_IncrementViewCount := fun d postID =>
    match outage d with
    | Some e => (Some e, d)
    | None =>
        (None,
         with_posts (map (fun p => if Post_ID (PWD_Post p) =? postID then bump p else p)
                         (posts d)) d)
    end
|}.

(** Fixtures. *)
Definition alice : User := mkUser 1 "A" "a@example.com" None 0 0.
Definition alice_renamed : User := mkUser 1 "B" "a@example.com" None 0 0.
Definition bob : User := mkUser 2 "Bob" "b@example.com" (Some 30) 0 0.

Definition hello : PostWithDetails :=
  mkPostWithDetails
    (mkPost 1 1 None "Hello" "hello" "Hello, world" None "published" (Some 0)
            7 0 0 false 0 0)
    "A" None None None None [] [].

(** Table-driven codecs: a compact rendering of the identifying fields, and a
    decoder that looks the text up among the fixtures. *)
Definition encode_user (u : User) : string :=
  "{id:" +:+ Sprintf_d (User_ID u) +:+ ",name:" +:+ User_Name u +:+ "}".

Definition encode_post (p : PostWithDetails) : string :=
  "{id:" +:+ Sprintf_d (Post_ID (PWD_Post p)) +:+ ",slug:" +:+ Post_Slug (PWD_Post p)
  +:+ ",viewCount:" +:+ Sprintf_d (Post_ViewCount (PWD_Post p)) +:+ "}".

Definition encode_list {A : Type} (enc : A -> string) (l : list A) : string :=
  "[" +:+ String.concat "," (map enc l) +:+ "]".

Definition lookup_text {A : Type} (enc : A -> string) (table : list A) (s : string) :
    option A :=
  List.find (fun a => String.eqb (enc a) s) table.

Definition codecs : Codecs := {|
  json_users := {|
    json_Marshal := fun l => Some (encode_list encode_user l);
    json_Unmarshal :=
      lookup_text (encode_list encode_user) [[]; [alice]; [alice; bob]; [bob]] |};
  json_user := {|
    json_Marshal := fun u => Some (encode_user u);
    json_Unmarshal := lookup_text encode_user [alice; alice_renamed; bob] |};
  json_posts := {|
    json_Marshal := fun l => Some (encode_list encode_post l);
    json_Unmarshal := lookup_text (encode_list encode_post) [[]; [hello]; [bump hello]] |};
  json_post := {|
    json_Marshal := fun p => Some (encode_post p);
    json_Unmarshal := lookup_text encode_post [hello; bump hello] |};
  json_count := {|
    json_Marshal := fun n => Some (Sprintf_d n);
    json_Unmarshal := fun s =>
      let '(n, ok) := ParseInt s in if ok then Some n else None |}
|}.

Definition db0 : MockDB := {| users := [alice; bob]; posts := [hello]; outage := None |}.
Definition db_down : MockDB :=
  {| users := [alice; bob]; posts := [hello];
     outage := Some (errors_New "connection refused") |}.

(** A cold, reachable cache in front of [db0]. *)
Definition cold : World (ds := ds) := @mkWorld ds db0 ∅ 0 [].

(** The scenario of a warm entry: [user:1] holds Alice and [post:slug:hello]
    holds the post, both fresh. *)
Definition warm : World (ds := ds) :=
  @mkWorld ds db0
    (<["user:1" := mkEntry (encode_user alice) (5 * Minute)]>
       (<["post:slug:hello" := mkEntry (encode_post hello) (5 * Minute)]>
          (<["posts:totalcount" := mkEntry "1" (5 * Minute)]> ∅)))
    0 [].

(** A corrupt payload under [user:1] in front of a database that is down. *)
Definition corrupt_and_down : World (ds := ds) :=
  @mkWorld ds db_down (<["user:1" := mkEntry "garbage" (5 * Minute)]> ∅) 0 [].

(** An entry under [user:3] while the database holds two users. *)
Definition stale_user_3 : World (ds := ds) :=
  @mkWorld ds db0 (<["user:3" := mkEntry "{id:3,name:Old}" (5 * Minute)]> ∅) 0 [].

Definition carol : User := mkUser 0 "Carol" "c@example.com" None 0 0.

(** The warm cache in front of a database that is down. *)
Definition warm_but_down : World (ds := ds) := @set_db ds db_down warm.

Definition request (no_cache : string) : Request :=
  {| QueryParam := fun name => if String.eqb name "no_cache" then no_cache else "";
     Param := fun _ => "";
     Bind_CreateUserRequest := None;
     Bind_UpdateUserRequest := None |}.

(** [PUT /users/1] renaming the user to B, with the given [no_cache]. *)
Definition rename_request (no_cache : string) : Request :=
  {| QueryParam := fun name => if String.eqb name "no_cache" then no_cache else "";
     Param := fun _ => "";
     Bind_CreateUserRequest := None;
     Bind_UpdateUserRequest :=
       Some {| UpdateUserRequest_Name := Some "B";
               UpdateUserRequest_Email := None;
               UpdateUserRequest_Age := None |} |}.

(** [GET /posts?page=...&pageSize=...]. *)
Definition page_request (page pageSize : string) : Request :=
  {| QueryParam := fun name =>
       if String.eqb name "page" then page
       else if String.eqb name "pageSize" then pageSize else "";
     Param := fun _ => "";
     Bind_CreateUserRequest := None;
     Bind_UpdateUserRequest := None |}.

End Mock.

Abbreviation mock_cachedRead := (@cachedRead Mock.ds Mock.codecs).
Abbreviation mock_directRead := (@directRead Mock.ds).
Abbreviation mock_cachedWrite := (@cachedWrite Mock.ds Mock.codecs).

(** * Further parts of the code *)

Section Invalidation.
Context {ds : DataSource} {codecs : Codecs}.

(** The reads whose cached result a write method removes, as a table over
    the two sets of methods. *)
Definition affects (q : WriteOp) (d : DB) (r : ReadOp) : bool :=
  match q, r with
  | UserCreate _, UserFindAll => true
  | UserUpdate _, UserFindAll => true
  | UserUpdate user, UserFindByID id => id =? updated_ID d user
  | UserDelete _, UserFindAll => true
  | UserDelete id', UserFindByID id => id =? id'
  | PostIncrementViewCount postID, PostFindByIDWithDetails id => id =? postID
  | PostIncrementViewCount _, PostFindAllWithDetails _ _ => true
  | PostIncrementViewCount _, PostFindByCategoryWithDetails _ _ _ => true
  | PostIncrementViewCount _, PostFindByTagWithDetails _ _ _ => true
  | PostIncrementViewCount _, PostFindFeaturedWithDetails _ => true
  | PostIncrementViewCount _, PostGetTotalCount => true
  | _, _ => false
  end.

(** Running the goroutines a request started, one after the other, on the
    world the request left. *)
Definition run_tasks (ts : list Task) (w : World) : World :=
  fold_left (fun w' t => fst (t w')) ts w.

(** The limit of the featured list as the code lets it through. *)
Definition featured_limit (limit : Z) : Z :=
  if (1 <=? limit) && (limit <=? 50) then limit else 10.

(** [user] with the fields a partial update supplies replaced. *)
Definition with_supplied (user : User) (name email : option string) (age : option Z) : User :=
  mkUser (User_ID user) (default (User_Name user) name) (default (User_Email user) email)
         (match age with Some a => Some a | None => User_Age user end)
         (User_CreatedAt user) (User_UpdatedAt user).

(** The repository read a request reaches through the handlers: the
    wrapped repository on a request with the flag, the cache-backed one
    otherwise. *)
Definition selectedRead (c : Request) : ReadOp -> M (error + Value) :=
  if parseNoCache c then directRead else cachedRead.

(** The request [c] with [no_cache=true] added. *)
Definition with_no_cache (c : Request) : Request :=
  {| QueryParam := fun name => if String.eqb name "no_cache" then "true" else QueryParam c name;
     Param := Param c;
     Bind_CreateUserRequest := Bind_CreateUserRequest c;
     Bind_UpdateUserRequest := Bind_UpdateUserRequest c |}.

(** No entry of the store outlives the next five minutes. *)
Definition ttl_bounded (w : World) : Prop :=
  map_Forall (fun _ e => expires e <= now w + 5 * Minute) (kv w).

End Invalidation.

(** ** api/interfaces/handler: PostHandler, the Echo handler of the posts

    The handler that reads the request itself and picks the usecase from the
    [no_cache] query parameter. *)

Section EchoPostHandler.
Context {ds : DataSource}.

Record PostHandler : Type := {
  poh_postUsecase : PostUsecase;
  poh_directPostUsecase : PostUsecase
}.

Definition NewPostHandler (postUsecase directPostUsecase : PostUsecase) : PostHandler :=
  {| poh_postUsecase := postUsecase; poh_directPostUsecase := directPostUsecase |}.

Definition PostHandler_selectUsecase (h : PostHandler) (c : Request) : PostUsecase :=
  let noCache := QueryParam c "no_cache" in
  if String.eqb noCache "true" || String.eqb noCache "1"
  then poh_directPostUsecase h
  else poh_postUsecase h.

Definition PostHandler_GetPosts (h : PostHandler) (c : Request) : M Response :=
  let uc := PostHandler_selectUsecase h c in
  let page := Atoi_value (QueryParam c "page") in
  let page := if page <? 1 then 1 else page in
  let pageSize := Atoi_value (QueryParam c "pageSize") in
  let pageSize := if pageSize <? 1 then 20 else pageSize in
  let* res := GetPosts uc page pageSize in
  match res with
  | inl _ => JSON_response StatusInternalServerError (ErrorMessage "Failed to retrieve posts")
  | inr (posts, total) => JSON_response StatusOK (PostsPageJSON posts total page pageSize)
  end.

Definition PostHandler_GetPostByID (h : PostHandler) (c : Request) : M Response :=
  let uc := PostHandler_selectUsecase h c in
  let '(id, ok) := ParseInt (Param c "id") in
  if negb ok then JSON_response StatusBadRequest (ErrorMessage "Invalid post ID")
  else
    let* res := GetPostByID uc id in
    match res with
    | inl _ => JSON_response StatusNotFound (ErrorMessage "Post not found")
    | inr post => JSON_response StatusOK (PostJSON post)
    end.

Definition PostHandler_GetPostBySlug (h : PostHandler) (c : Request) : M Response :=
  let uc := PostHandler_selectUsecase h c in
  let slug := Param c "slug" in
  if String.eqb slug "" then JSON_response StatusBadRequest (ErrorMessage "Slug is required")
  else
    let* res := GetPostBySlug uc slug in
    match res with
    | inl _ => JSON_response StatusNotFound (ErrorMessage "Post not found")
    | inr post => JSON_response StatusOK (PostJSON post)
    end.

Definition PostHandler_GetPostsByCategory (h : PostHandler) (c : Request) : M Response :=
  let uc := PostHandler_selectUsecase h c in
  let slug := Param c "slug" in
  if String.eqb slug ""
  then JSON_response StatusBadRequest (ErrorMessage "Category slug is required")
  else
    let page := Atoi_value (QueryParam c "page") in
    let page := if page <? 1 then 1 else page in
    let pageSize := Atoi_value (QueryParam c "pageSize") in
    let pageSize := if pageSize <? 1 then 20 else pageSize in
    let* res := GetPostsByCategory uc slug page pageSize in
    match res with
    | inl _ => JSON_response StatusInternalServerError (ErrorMessage "Failed to retrieve posts")
    | inr posts => JSON_response StatusOK (PostsJSON posts)
    end.

Definition PostHandler_GetPostsByTag (h : PostHandler) (c : Request) : M Response :=
  let uc := PostHandler_selectUsecase h c in
  let slug := Param c "slug" in
  if String.eqb slug ""
  then JSON_response StatusBadRequest (ErrorMessage "Tag slug is required")
  else
    let page := Atoi_value (QueryParam c "page") in
    let page := if page <? 1 then 1 else page in
    let pageSize := Atoi_value (QueryParam c "pageSize") in
    let pageSize := if pageSize <? 1 then 20 else pageSize in
    let* res := GetPostsByTag uc slug page pageSize in
    match res with
    | inl _ => JSON_response StatusInternalServerError (ErrorMessage "Failed to retrieve posts")
    | inr posts => JSON_response StatusOK (PostsJSON posts)
    end.

Definition PostHandler_GetFeaturedPosts (h : PostHandler) (c : Request) : M Response :=
  let uc := PostHandler_selectUsecase h c in
  let limit := Atoi_value (QueryParam c "limit") in
  let limit := if limit <? 1 then 10 else limit in
  let* res := GetFeaturedPosts uc limit in
  match res with
  | inl _ =>
      JSON_response StatusInternalServerError (ErrorMessage "Failed to retrieve featured posts")
  | inr posts => JSON_response StatusOK (PostsJSON posts)
  end.

(** The six routes of the posts, for either handler. *)
Inductive PostEndpoint : Type :=
| posts_list
| posts_by_id
| posts_by_slug
| posts_by_category
| posts_by_tag
| posts_featured.

Definition servePost (h : PostHandler) (ep : PostEndpoint) : Request -> M Response :=
  match ep with
  | posts_list => PostHandler_GetPosts h
  | posts_by_id => PostHandler_GetPostByID h
  | posts_by_slug => PostHandler_GetPostBySlug h
  | posts_by_category => PostHandler_GetPostsByCategory h
  | posts_by_tag => PostHandler_GetPostsByTag h
  | posts_featured => PostHandler_GetFeaturedPosts h
  end.

Definition servePostBridge (b : PostHandlerBridge) (ep : PostEndpoint) :
    Request -> M Response :=
  match ep with
  | posts_list => PostHandlerBridge_GetPosts b
  | posts_by_id => PostHandlerBridge_GetPostByID b
  | posts_by_slug => PostHandlerBridge_GetPostBySlug b
  | posts_by_category => PostHandlerBridge_GetPostsByCategory b
  | posts_by_tag => PostHandlerBridge_GetPostsByTag b
  | posts_featured => PostHandlerBridge_GetFeaturedPosts b
  end.

End EchoPostHandler.

(** ** api/infrastructure/persistence/mysql: the tags of a page of posts

    [scanPostsWithTags] and [loadTagsForPosts] over the rows the driver
    delivers. *)

(** [*sql.Rows]: what each [Next]/[Scan] yields, in order, and what [Err]
    reports once [Next] has returned false. *)
Record Rows (A : Type) : Type := mkRows {
  Rows_scans : list (error + A);
  Rows_Err : option error
}.
Arguments mkRows {A} _ _.
Arguments Rows_scans {A} _.
Arguments Rows_Err {A} _.

(** The row loop of [loadTagsForPosts]:
    [tagsMap[postID] = append(tagsMap[postID], tag)]. *)
Fixpoint scanTags (scans : list (error + Z * Tag)) (tagsMap : gmap Z (list Tag)) :
    error + gmap Z (list Tag) :=
  match scans with
  | [] => inr tagsMap
  | inl err :: _ => inl (Errorf_w "failed to scan tag" err)
  | inr (postID, tag) :: rest =>
      scanTags rest (<[postID := (default [] (tagsMap !! postID) ++ [tag])%list]> tagsMap)
  end.

(** [QueryContext] is the outcome of the [IN] query for the given IDs. *)
Definition loadTagsForPosts (QueryContext : list Z -> error + Rows (Z * Tag))
    (postIDs : list Z) : error + gmap Z (list Tag) :=
  if (length postIDs =? 0)%nat then inr ∅
  else
    match QueryContext postIDs with
    | inl err => inl (Errorf_w "failed to query tags" err)
    | inr rows =>
        match scanTags (Rows_scans rows) ∅ with
        | inl err => inl err
        | inr tagsMap =>
            match Rows_Err rows with
            | Some err => inl err
            | None => inr tagsMap
            end
        end
    end.

(** The row loop of [scanPostsWithTags]: the posts and their IDs, in row
    order. *)
Fixpoint scanPosts (scans : list (error + PostWithDetails))
    (posts : list PostWithDetails) (postIDs : list Z) :
    error + list PostWithDetails * list Z :=
  match scans with
  | [] => inr (posts, postIDs)
  | inl err :: _ => inl (Errorf_w "failed to scan post" err)
  | inr post :: rest =>
      scanPosts rest (posts ++ [post])%list (postIDs ++ [Post_ID (PWD_Post post)])%list
  end.

(** [posts[i].Tags = tags] *)
Definition set_Tags (tags : list Tag) (post : PostWithDetails) : PostWithDetails :=
  mkPostWithDetails (PWD_Post post) (PWD_AuthorUsername post) (PWD_AuthorDisplayName post)
    (PWD_AuthorAvatarURL post) (PWD_CategoryName post) (PWD_CategorySlug post)
    tags (PWD_LatestComments post).

Definition scanPostsWithTags (QueryContext : list Z -> error + Rows (Z * Tag))
    (rows : Rows PostWithDetails) : error + list PostWithDetails :=
  match scanPosts (Rows_scans rows) [] [] with
  | inl err => inl err
  | inr (posts, postIDs) =>
      match Rows_Err rows with
      | Some err => inl (Errorf_w "rows iteration error" err)
      | None =>
          if (0 <? length postIDs)%nat then
            match loadTagsForPosts QueryContext postIDs with
            | inl err => inl (Errorf_w "failed to load tags" err)
            | inr tagsMap =>
                inr (map (fun post =>
                            match tagsMap !! Post_ID (PWD_Post post) with
                            | Some tags => set_Tags tags post
                            | None => post
                            end) posts)
            end
          else inr posts
      end
  end.

(** The tags the rows of the tag query give post [postID], in row order. *)
Definition tags_of (postID : Z) (tagRows : list (Z * Tag)) : list Tag :=
  map snd (List.filter (fun row => fst row =? postID) tagRows).

(** ** Further fixtures *)

Module Scenario.

(** [GET /posts/{id}] and [GET /posts/slug/{slug}] without query
    parameters. *)
Definition path_request (id slug : string) : Request :=
  {| QueryParam := fun _ => "";
     Param := fun name =>
       if String.eqb name "id" then id
       else if String.eqb name "slug" then slug else "";
     Bind_CreateUserRequest := None;
     Bind_UpdateUserRequest := None |}.

(** The warm cache while the store is unreachable for two commands. *)
Definition warm_unreachable : World (ds := Mock.ds) :=
  @set_faults Mock.ds [true; true] Mock.warm.

Definition tag (id : Z) (name : string) : Tag := mkTag id name name None 0 0 0.

Definition second : PostWithDetails :=
  mkPostWithDetails
    (mkPost 2 1 None "Second" "second" "Second post" None "published" (Some 0)
            0 0 0 false 0 0)
    "A" None None None None [] [].

(** The rows of the tag query for posts 1 and 2: post 1 carries [go] and
    [web], post 2 carries nothing. *)
Definition tag_rows : list (Z * Tag) := [(1, tag 10 "go"); (1, tag 11 "web")].

Definition tag_query (postIDs : list Z) : error + Rows (Z * Tag) :=
  inr (mkRows (map inr tag_rows) None).

End Scenario.

(** * Properties *)

#[local] Arguments String.append !s1 s2 : simpl nomatch.

(** ** The primitives on concrete inputs *)

Example Sprintf_d_examples :
  Sprintf_d 0 = "0" /\ Sprintf_d 42 = "42" /\ Sprintf_d (-7) = "-7" /\
  Sprintf_d GoInt.MinInt = "-9223372036854775808".
Proof. repeat split; vm_compute; reflexivity. Qed.

Example ParseInt_examples :
  ParseInt "12" = (12, true) /\ ParseInt "-3" = (-3, true) /\ ParseInt "+8" = (8, true) /\
  ParseInt "" = (0, false) /\ ParseInt "1x" = (0, false) /\ ParseInt "-" = (0, false) /\
  ParseInt "9223372036854775808" = (GoInt.MaxInt, false) /\
  ParseInt "-9223372036854775808" = (GoInt.MinInt, true).
Proof. repeat split; vm_compute; reflexivity. Qed.

Example wrap_examples :
  GoInt.wrap 5 = 5 /\ GoInt.wrap (-5) = -5 /\ GoInt.wrap (2 ^ 63) = - 2 ^ 63 /\
  GoInt.wrap (2 ^ 64 + 1) = 1.
Proof. repeat split; vm_compute; reflexivity. Qed.

Example glob_match_examples :
  glob_match "posts:*" "posts:all:limit=5:offset=0" = true /\
  glob_match "posts:*" "posts:" = true /\
  glob_match "posts:*" "post:1" = false /\
  glob_match "posts:*" "post:slug:posts:x" = false /\
  glob_match "p?st:*" "post:1" = true /\
  glob_match "*:all" "users:all" = true.
Proof. repeat split; vm_compute; reflexivity. Qed.

(** The key namespaces, as listed for the observed deployment. *)
Example cacheKey_examples :
  cacheKey (UserFindByID 1) = "user:1" /\
  cacheKey UserFindAll = "users:all" /\
  cacheKey (PostFindByIDWithDetails 7) = "post:7" /\
  cacheKey (PostFindBySlugWithDetails "hello") = "post:slug:hello" /\
  cacheKey (PostFindAllWithDetails 5 0) = "posts:all:limit=5:offset=0" /\
  cacheKey (PostFindByCategoryWithDetails "go" 20 40) =
    "posts:category:go:limit=20:offset=40" /\
  cacheKey (PostFindByTagWithDetails "go" 20 40) = "posts:tag:go:limit=20:offset=40" /\
  cacheKey (PostFindFeaturedWithDetails 10) = "posts:featured:limit=10" /\
  cacheKey PostGetTotalCount = "posts:totalcount".
Proof. repeat split; vm_compute; reflexivity. Qed.

(** ** Strings, decimal renderings and keys *)

Lemma string_app_assoc (s t u : string) : (s +:+ t) +:+ u = s +:+ t +:+ u.
Proof. induction s as [|c s IH]; cbn; [reflexivity | by f_equal]. Qed.

Lemma has_colon_app (s t : string) :
  has_colon (s +:+ t) = has_colon s || has_colon t.
Proof.
  induction s as [|c s IH]; cbn; [reflexivity|].
  rewrite <- orb_assoc. by f_equal.
Qed.

Lemma pretty_N_char_not_colon (x : N) : is_colon (pretty_N_char x) = false.
Proof. unfold pretty_N_char. by repeat case_match. Qed.

Lemma pretty_N_go_no_colon (x : N) (s : string) :
  has_colon s = false -> has_colon (pretty_N_go x s) = false.
Proof.
  revert s. induction (N.lt_wf_0 x) as [x _ IH]; intros s Hs.
  destruct (decide (x = 0%N)) as [->|Hx].
  - by rewrite pretty_N_go_0.
  - rewrite pretty_N_go_step by lia.
    apply IH; [apply N.div_lt; lia|].
    cbn. by rewrite pretty_N_char_not_colon.
Qed.

Lemma pretty_N_no_colon (x : N) : has_colon (pretty x) = false.
Proof.
  unfold pretty, pretty_N. case_decide; [reflexivity|].
  by apply pretty_N_go_no_colon.
Qed.

Lemma Sprintf_d_no_colon (z : Z) : has_colon (Sprintf_d z) = false.
Proof.
  unfold Sprintf_d, pretty, pretty_Z. destruct z as [|p|p]; [reflexivity| |].
  - apply pretty_N_no_colon.
  - rewrite has_colon_app. cbn. apply pretty_N_no_colon.
Qed.

Lemma Sprintf_d_inj (a b : Z) : Sprintf_d a = Sprintf_d b -> a = b.
Proof. apply pretty_Z_inj. Qed.

Lemma pretty_N_go_starts_numeric (x : N) (s : string) :
  starts_numeric s = true -> starts_numeric (pretty_N_go x s) = true.
Proof.
  revert s. induction (N.lt_wf_0 x) as [x _ IH]; intros s Hs.
  destruct (decide (x = 0%N)) as [->|Hx].
  - by rewrite pretty_N_go_0.
  - rewrite pretty_N_go_step by lia.
    apply IH; [apply N.div_lt; lia|].
    unfold pretty_N_char. by repeat case_match.
Qed.

Lemma Sprintf_d_starts_numeric (z : Z) : starts_numeric (Sprintf_d z) = true.
Proof.
  assert (Hpos : forall p : positive, starts_numeric (pretty (N.pos p)) = true).
  { intros p. unfold pretty, pretty_N. case_decide; [reflexivity|].
    rewrite pretty_N_go_step by lia.
    apply pretty_N_go_starts_numeric.
    unfold pretty_N_char. by repeat case_match. }
  unfold Sprintf_d, pretty, pretty_Z. destruct z as [|p|p]; [reflexivity| |].
  - apply Hpos.
  - reflexivity.
Qed.

(** The text before and after the last colon of a string is determined by
    the string. *)
Lemma split_at_last_colon (x1 y1 x2 y2 : string) :
  has_colon y1 = false -> has_colon y2 = false ->
  x1 +:+ ":" +:+ y1 = x2 +:+ ":" +:+ y2 -> x1 = x2 /\ y1 = y2.
Proof.
  intros H1 H2. revert x2.
  induction x1 as [|c x1 IH]; intros [|c' x2] Heq; cbn in Heq.
  - by injection Heq.
  - injection Heq as <- ->.
    rewrite has_colon_app in H1. cbn in H1.
    by rewrite orb_true_r in H1.
  - injection Heq as -> <-.
    rewrite has_colon_app in H2. cbn in H2.
    by rewrite orb_true_r in H2.
  - injection Heq as -> Heq. destruct (IH _ Heq) as [-> ->]. done.
Qed.

(** [{slug}:limit={n}:offset={n}] determines its three parameters, whatever
    the slug contains. *)
Lemma paged_suffix_inj (s1 s2 : string) (l1 o1 l2 o2 : Z) :
  s1 +:+ ":limit=" +:+ Sprintf_d l1 +:+ ":offset=" +:+ Sprintf_d o1 =
  s2 +:+ ":limit=" +:+ Sprintf_d l2 +:+ ":offset=" +:+ Sprintf_d o2 ->
  s1 = s2 /\ l1 = l2 /\ o1 = o2.
Proof.
  intros Heq.
  assert (Hsplit : forall s l o,
    s +:+ ":limit=" +:+ Sprintf_d l +:+ ":offset=" +:+ Sprintf_d o =
    (s +:+ ":" +:+ ("limit=" +:+ Sprintf_d l)) +:+ ":" +:+ ("offset=" +:+ Sprintf_d o)).
  { intros s l o. rewrite !string_app_assoc. reflexivity. }
  rewrite !Hsplit in Heq.
  apply split_at_last_colon in Heq as [Heq Ho];
    [| rewrite has_colon_app; cbn; apply Sprintf_d_no_colon ..].
  apply split_at_last_colon in Heq as [Hs Hl];
    [| rewrite has_colon_app; cbn; apply Sprintf_d_no_colon ..].
  cbn in Ho, Hl. injection Ho as Ho. injection Hl as Hl.
  apply Sprintf_d_inj in Ho, Hl. done.
Qed.

Lemma limit_suffix_inj (s1 s2 : string) (l1 l2 : Z) :
  s1 +:+ ":limit=" +:+ Sprintf_d l1 = s2 +:+ ":limit=" +:+ Sprintf_d l2 ->
  s1 = s2 /\ l1 = l2.
Proof.
  intros Heq.
  change (s1 +:+ ":" +:+ ("limit=" +:+ Sprintf_d l1) =
          s2 +:+ ":" +:+ ("limit=" +:+ Sprintf_d l2)) in Heq.
  apply split_at_last_colon in Heq as [Hs Hl];
    [| rewrite has_colon_app; cbn; apply Sprintf_d_no_colon ..].
  cbn in Hl. injection Hl as Hl. apply Sprintf_d_inj in Hl. done.
Qed.

Lemma numeric_not_slug (z : Z) (s : string) : Sprintf_d z <> "slug:" +:+ s.
Proof.
  intros Heq. pose proof (Sprintf_d_starts_numeric z) as H.
  rewrite Heq in H. discriminate.
Qed.

(** C5. Key derivation is injective over (method, parameters): two read
    calls that differ in the method or in any parameter (ID, slug, limit,
    offset) derive different keys, also when a slug contains the [:]
    delimiter. *)
Theorem cacheKey_injective (q1 q2 : ReadOp) :
  q1 <> q2 -> cacheKey q1 <> cacheKey q2.
Proof.
  intros Hne H. apply Hne. clear Hne.
  destruct q1, q2; try reflexivity; try (cbn in H; discriminate H).
  all: unfold cacheKey, getCacheKey, getPostCacheKey in H.
  - apply (inj (String.app "user:")) in H. by apply Sprintf_d_inj in H as ->.
  - apply (paged_suffix_inj "posts:all" "posts:all") in H as (_ & -> & ->). done.
  - apply (inj (String.app "post:")) in H. by apply Sprintf_d_inj in H as ->.
  - apply (inj (String.app "post:")) in H. by apply numeric_not_slug in H.
  - apply (inj (String.app "post:")) in H. symmetry in H. by apply numeric_not_slug in H.
  - apply (inj (String.app "post:slug:")) in H. by subst.
  - apply (inj (String.app "posts:category:")) in H.
    apply paged_suffix_inj in H as (-> & -> & ->). done.
  - apply (inj (String.app "posts:tag:")) in H.
    apply paged_suffix_inj in H as (-> & -> & ->). done.
  - apply (limit_suffix_inj "posts:featured" "posts:featured") in H as (_ & ->). done.
Qed.

Lemma cacheKey_injective_witness :
  cacheKey (PostFindByCategoryWithDetails "go:limit=1:offset=2" 3 4) <>
  cacheKey (PostFindByCategoryWithDetails "go" 1 2).
Proof. apply cacheKey_injective. discriminate. Defined.

(** ** The cached reads *)

Section ReadThrough.
Context {ds : DataSource} {codecs : Codecs}.

Lemma readThrough_query {V : Type} `{JSON V} (key : string) (ttl : Z) (q : ReadOp)
    (f : DB -> error + V) (w : World) :
  readThrough key ttl (ds_query q f) w =
  match (if next_fault w then None
         else match kv w !! key with
              | Some e => json_Unmarshal (payload e)
              | None => None
              end) with
  | Some v => mkRes (inr v) (after_command w) [RedisGet key] []
  | None =>
      match f (db w) with
      | inl e => mkRes (inl e) (after_command w) [RedisGet key; DSRead q (Some e)] []
      | inr v =>
          mkRes (inr v) (populated key (default "" (json_Marshal v)) ttl w)
                [RedisGet key; DSRead q None;
                 RedisSet key (default "" (json_Marshal v)) ttl] []
      end
  end.
Proof.
  unfold readThrough, bind, redis_Get, ds_query, populated, ret, after_command, set_faults.
  destruct (next_fault w) eqn:Hf; simpl.
  - destruct (f (db w)) as [e|v]; reflexivity.
  - destruct (kv w !! key) as [e|] eqn:Hk; simpl.
    + destruct (json_Unmarshal (payload e)) as [v|]; simpl; [reflexivity|].
      destruct (f (db w)) as [e'|v]; reflexivity.
    + destruct (f (db w)) as [e'|v]; reflexivity.
Qed.

(** Each cached read method is the pattern at its own key. *)
Lemma cachedRead_readThrough (q : ReadOp) :
  cachedRead q =
  match q with
  | UserFindAll =>
      mapM (inr_map VUsers) (readThrough (cacheKey q) (5 * Minute) (FindAll baseUserRepo))
  | UserFindByID id =>
      mapM (inr_map VUser) (readThrough (cacheKey q) (5 * Minute) (FindByID baseUserRepo id))
  | PostFindAllWithDetails limit offset =>
      mapM (inr_map VPosts)
           (readThrough (cacheKey q) (5 * Minute) (FindAllWithDetails basePostRepo limit offset))
  | PostFindByIDWithDetails id =>
      mapM (inr_map VPost)
           (readThrough (cacheKey q) (5 * Minute) (FindByIDWithDetails basePostRepo id))
  | PostFindBySlugWithDetails slug =>
      mapM (inr_map VPost)
           (readThrough (cacheKey q) (5 * Minute) (FindBySlugWithDetails basePostRepo slug))
  | PostFindByCategoryWithDetails categorySlug limit offset =>
      mapM (inr_map VPosts)
           (readThrough (cacheKey q) (5 * Minute)
                        (FindByCategoryWithDetails basePostRepo categorySlug limit offset))
  | PostFindByTagWithDetails tagSlug limit offset =>
      mapM (inr_map VPosts)
           (readThrough (cacheKey q) (5 * Minute)
                        (FindByTagWithDetails basePostRepo tagSlug limit offset))
  | PostFindFeaturedWithDetails limit =>
      mapM (inr_map VPosts)
           (readThrough (cacheKey q) (5 * Minute) (FindFeaturedWithDetails basePostRepo limit))
  | PostGetTotalCount =>
      mapM (inr_map VCount) (readThrough (cacheKey q) (5 * Minute) (GetTotalCount basePostRepo))
  end.
Proof. destruct q; reflexivity. Qed.

(** The three outcomes of a cached read. *)
Lemma cachedRead_spec (q : ReadOp) (w : World) :
  cachedRead q w =
  match cacheHit q w with
  | Some v => mkRes (inr v) (after_command w) [RedisGet (cacheKey q)] []
  | None =>
      match dsRead q (db w) with
      | inl e =>
          mkRes (inl e) (after_command w) [RedisGet (cacheKey q); DSRead q (Some e)] []
      | inr v =>
          mkRes (inr v)
                (populated (cacheKey q) (default "" (marshalValue v)) (5 * Minute) w)
                [RedisGet (cacheKey q); DSRead q None;
                 RedisSet (cacheKey q) (default "" (marshalValue v)) (5 * Minute)] []
      end
  end.
Proof.
  rewrite cachedRead_readThrough. unfold cacheHit.
  destruct q; cbn [baseUserRepo basePostRepo mysql_NewUserRepository
    mysql_NewPostRepository FindAll FindByID FindAllWithDetails FindByIDWithDetails
    FindBySlugWithDetails FindByCategoryWithDetails FindByTagWithDetails
    FindFeaturedWithDetails GetTotalCount];
    unfold mapM; rewrite readThrough_query; unfold dsRead, unmarshalFor;
    (destruct (next_fault w); simpl;
     [| destruct (kv w !! _) as [e|]; simpl;
        [destruct (json_Unmarshal (payload e)); simpl |]]);
    try reflexivity;
    match goal with
    | |- context [match ?x with inl _ => _ | inr _ => _ end] => destruct x
    end; reflexivity.
Qed.

End ReadThrough.

Section ReadProperties.
Context {ds : DataSource} {codecs : Codecs}.

Lemma err_of_inr_map {A B : Type} (f : A -> B) (r : error + A) :
  err_of (inr_map f r) = err_of r.
Proof. by destruct r. Qed.

(** A read through the uncached repositories is the data source's answer and
    nothing else. *)
Lemma directRead_spec (q : ReadOp) (w : World) :
  directRead q w = mkRes (dsRead q (db w)) w [DSRead q (err_of (dsRead q (db w)))] [].
Proof.
  destruct q; unfold directRead, repoRead, mapM, dsRead; simpl; unfold ds_query; simpl;
    by rewrite err_of_inr_map.
Qed.

Lemma cold_is_miss (q : ReadOp) (w : World) :
  kv w !! cacheKey q = None -> cacheHit q w = None.
Proof. intros H. unfold cacheHit. rewrite H. by destruct (next_fault w). Qed.

(** C1. Read-through correctness: a read against a cold cache (no entry
    under the derived key) returns what the wrapped data source returns for
    the same parameters.  When that read succeeded on a reachable store, a
    second read with the same parameters within the five-minute TTL returns
    the value the stored JSON text deserializes to (the first result, after
    serialization and deserialization) and does not call the data source. *)
Theorem read_through_correct (q : ReadOp) (w : World) :
  kv w !! cacheKey q = None ->
  value (cachedRead q w) = value (directRead q w) /\
  forall (v v' : Value) (data : string) (dt : Z),
    faults w = [] ->
    value (directRead q w) = inr v ->
    marshalValue v = Some data ->
    unmarshalFor q data = Some v' ->
    0 <= dt < 5 * Minute ->
    let w2 := advance dt (world (cachedRead q w)) in
    value (cachedRead q w2) = inr v' /\ no_ds_events (events (cachedRead q w2)).
Proof.
  intros Hcold. pose proof (cold_is_miss q w Hcold) as Hmiss.
  split.
  - rewrite directRead_spec, cachedRead_spec, Hmiss. by destruct (dsRead q (db w)).
  - intros v v' data dt Hreach Hread Hm Hu Hdt w2.
    rewrite directRead_spec in Hread. simpl in Hread.
    assert (Hhit : cacheHit q w2 = Some v').
    { unfold w2. rewrite cachedRead_spec, Hmiss, Hread. simpl.
      unfold cacheHit, populated, redis_Set, next_fault, after_command, set_faults, advance.
      simpl. rewrite Hreach. simpl.
      rewrite Hm. simpl.
      rewrite (map_lookup_filter_Some_2 _ _ (cacheKey q) (mkEntry data (now w + 5 * Minute)));
        [exact Hu | apply lookup_insert_eq | simpl; apply Z.ltb_lt; lia]. }
    rewrite cachedRead_spec, Hhit. simpl. split; [reflexivity|].
    repeat constructor.
Qed.

(** C4. A cached read returns an error exactly when the data source read it
    performed returned that error.  Whenever the lookup does not produce a
    decoded payload (the command failed, the key is absent, or the payload
    does not decode) the result is the data source's, value or error,
    unchanged; the result is a function of the database and of the outcome
    of the lookup alone, so a failing [SET] cannot change it; and when the
    data source errs, no [SET] is issued and the keyspace is left as it
    was. *)
Theorem cache_failures_never_surface (q : ReadOp) (w : World) :
  let r := cachedRead q w in
  (forall e, value r = inl e <-> In (DSRead q (Some e)) (events r)) /\
  (cacheHit q w = None -> value r = value (directRead q w)) /\
  (forall w', db w' = db w -> cacheHit q w' = cacheHit q w ->
              value (cachedRead q w') = value r) /\
  (forall e, value r = inl e ->
             kv (world r) = kv w /\ Forall (fun ev => forall k d t, ev <> RedisSet k d t) (events r)).
Proof.
  simpl. rewrite directRead_spec. simpl. repeat split.
  - rewrite cachedRead_spec.
    destruct (cacheHit q w); [discriminate|].
    destruct (dsRead q (db w)); simpl; [|discriminate].
    intros [= ->]. right. by left.
  - rewrite cachedRead_spec.
    destruct (cacheHit q w); simpl.
    { intros [H|[]]. discriminate. }
    destruct (dsRead q (db w)); simpl; intros [H|[H|H]]; try discriminate.
    + by injection H as ->.
    + destruct H.
    + destruct H as [H|[]]. discriminate.
  - intros Hmiss. rewrite cachedRead_spec, Hmiss. by destruct (dsRead q (db w)).
  - intros w' Hdb Hhit. rewrite !cachedRead_spec, Hhit, Hdb.
    destruct (cacheHit q w); [reflexivity|]. by destruct (dsRead q (db w)).
  - revert H. rewrite cachedRead_spec.
    destruct (cacheHit q w); [discriminate|].
    destruct (dsRead q (db w)); [reflexivity|discriminate].
  - revert H. rewrite cachedRead_spec.
    destruct (cacheHit q w); [discriminate|].
    destruct (dsRead q (db w)); [|discriminate].
    intros _. repeat constructor; discriminate.
Qed.

End ReadProperties.

(** ** The cached writes *)

Section WriteProperties.
Context {ds : DataSource} {codecs : Codecs}.

Lemma glob_match_literal (c d : ascii) (pat s : string) :
  c <> "*"%char -> c <> "?"%char ->
  glob_match (String c pat) (String d s) = Ascii.eqb c d && glob_match pat s.
Proof.
  intros Hstar Hany.
  destruct c as [[] [] [] [] [] [] [] []]; try reflexivity; congruence.
Qed.

Lemma glob_match_literal_nil (c : ascii) (pat : string) :
  c <> "*"%char -> c <> "?"%char -> glob_match (String c pat) "" = false.
Proof.
  intros Hstar Hany.
  destruct c as [[] [] [] [] [] [] [] []]; try reflexivity; congruence.
Qed.

Lemma glob_match_star (s : string) : glob_match "*" s = true.
Proof.
  induction s as [|c s IH]; [reflexivity|].
  change (glob_match "" (String c s) || glob_match "*" s = true).
  by rewrite IH, orb_true_r.
Qed.

Lemma glob_posts_star (k : string) :
  glob_match "posts:*" k = true <-> exists rest, k = "posts:" +:+ rest.
Proof.
  split.
  - intros H.
    do 6 (destruct k as [|? k];
          [by rewrite glob_match_literal_nil in H|];
          rewrite glob_match_literal in H by discriminate;
          apply andb_prop in H as [Hc H]; apply Ascii.eqb_eq in Hc as <-).
    by exists k.
  - intros [rest ->].
    change ("posts:" +:+ rest) with
      (String "p" (String "o" (String "s" (String "t" (String "s" (String ":" rest)))))).
    rewrite !glob_match_literal by discriminate.
    by rewrite glob_match_star.
Qed.

#[local] Arguments glob_match : simpl never.

Lemma slug_key_not_glob (slug : string) :
  glob_match "posts:*" ("post:slug:" +:+ slug) = false.
Proof. reflexivity. Qed.

Lemma slug_key_not_post_key (slug : string) (postID : Z) :
  "post:slug:" +:+ slug <> getPostCacheKey postID.
Proof.
  unfold getPostCacheKey. intros H. apply (inj (String.app "post:")) in H.
  symmetry in H. by apply numeric_not_slug in H.
Qed.

(** [DEL] removes the listed keys when the command goes through, and
    nothing otherwise. *)
Lemma kv_redis_Del (keys : list string) (w : World) :
  kv (world (redis_Del keys w)) =
  if next_fault w then kv w else foldr delete (kv w) keys.
Proof. unfold redis_Del. simpl. by destruct (next_fault w). Qed.

Lemma faults_redis_Del (keys : list string) (w : World) :
  faults (world (redis_Del keys w)) = tl (faults w).
Proof. unfold redis_Del. simpl. by destruct (next_fault w). Qed.

Lemma db_redis_Del (keys : list string) (w : World) :
  db (world (redis_Del keys w)) = db w.
Proof. unfold redis_Del. simpl. by destruct (next_fault w). Qed.

(** Every key [KEYS] returns matches the pattern, and on a reachable store
    every stored key that matches is returned. *)
Lemma redis_Keys_sound (pattern : string) (w : World) (k : string) :
  k ∈ value (redis_Keys pattern w) -> glob_match pattern k = true.
Proof.
  unfold redis_Keys. simpl. destruct (next_fault w); [by intros ?%elem_of_nil|].
  by intros [? _]%list_elem_of_filter.
Qed.

Lemma redis_Keys_complete (pattern : string) (w : World) (k : string) :
  next_fault w = false -> is_Some (kv w !! k) -> glob_match pattern k = true ->
  k ∈ value (redis_Keys pattern w).
Proof.
  intros Hf [e He] Hg. unfold redis_Keys. simpl. rewrite Hf.
  apply list_elem_of_filter. split; [done|].
  apply list_elem_of_fmap. exists (k, e). split; [done|].
  by apply elem_of_map_to_list.
Qed.

(** The outcome of a cached write whose data source write failed. *)
Lemma cachedWrite_failed (q : WriteOp) (w : World) (e : error) :
  fst (dsWrite q (db w)) = Some e ->
  cachedWrite q w =
  mkRes (Some e) (set_db (snd (dsWrite q (db w))) w) [DSWrite q (Some e)] [].
Proof.
  destruct q; unfold cachedWrite, repoWrite, dsWrite, mapM; simpl;
    unfold cachedUser_Create, cachedUser_Update, cachedUser_Delete,
      cachedPost_IncrementViewCount, bind, ds_exec; simpl.
  - destruct (ds_user_Create (db w) user) as [[e'|u] d]; simpl; [|discriminate].
    by intros [= ->].
  - destruct (ds_user_Update (db w) user) as [[e'|u] d]; simpl; [|discriminate].
    by intros [= ->].
  - destruct (ds_user_Delete (db w) id) as [[e'|] d]; simpl; [|discriminate].
    by intros [= ->].
  - destruct (ds_post_IncrementViewCount (db w) postID) as [[e'|] d]; simpl; [|discriminate].
    by intros [= ->].
Qed.

Lemma cachedWrite_world (q : WriteOp) (w : World) :
  fst (dsWrite q (db w)) = None ->
  value (cachedWrite q w) = None /\
  world (cachedWrite q w) =
  let w1 := set_db (snd (dsWrite q (db w))) w in
  match q with
  | UserCreate _ => world (redis_Del ["users:all"] w1)
  | UserUpdate user =>
      world (redis_Del ["users:all"]
               (world (redis_Del [getCacheKey (updated_ID (db w) user)] w1)))
  | UserDelete id =>
      world (redis_Del ["users:all"] (world (redis_Del [getCacheKey id] w1)))
  | PostIncrementViewCount postID => after_post_invalidation postID w1
  end.
Proof.
  destruct q; unfold cachedWrite, repoWrite, dsWrite, mapM, updated_ID;
    cbn [cachedUserRepo cachedPostRepo NewCachedUserRepository NewCachedPostRepository
         Create Update Delete IncrementViewCount fst snd];
    unfold cachedUser_Create, cachedUser_Update, cachedUser_Delete,
      cachedPost_IncrementViewCount, after_post_invalidation, bind;
    cbn [cu_baseRepo cp_baseRepo baseUserRepo basePostRepo mysql_NewUserRepository
         mysql_NewPostRepository Create Update Delete IncrementViewCount];
    unfold ds_exec; cbn [value world fst snd].
  - destruct (ds_user_Create (db w) user) as [[e'|u] d]; cbn; [discriminate|]. done.
  - destruct (ds_user_Update (db w) user) as [[e'|u] d]; cbn; [discriminate|]. done.
  - destruct (ds_user_Delete (db w) id) as [[e'|] d]; cbn; [discriminate|]. done.
  - destruct (ds_post_IncrementViewCount (db w) postID) as [[e'|] d];
      cbn [fst snd value world]; [discriminate|].
    intros _. by destruct (0 <? _).
Qed.

Lemma cachedWrite_events (q : WriteOp) (w : World) :
  fst (dsWrite q (db w)) = None ->
  events (cachedWrite q w) =
  DSWrite q None ::
  invalidation_commands q (db w) (set_db (snd (dsWrite q (db w))) w).
Proof.
  destruct q; unfold invalidation_commands, cachedWrite, repoWrite, dsWrite, mapM, updated_ID;
    cbn [cachedUserRepo cachedPostRepo NewCachedUserRepository NewCachedPostRepository
         Create Update Delete IncrementViewCount fst snd];
    unfold cachedUser_Create, cachedUser_Update, cachedUser_Delete,
      cachedPost_IncrementViewCount, bind;
    cbn [cu_baseRepo cp_baseRepo baseUserRepo basePostRepo mysql_NewUserRepository
         mysql_NewPostRepository Create Update Delete IncrementViewCount];
    unfold ds_exec; cbn [value world events fst snd].
  - destruct (ds_user_Create (db w) user) as [[e'|u] d]; cbn; [discriminate|]. done.
  - destruct (ds_user_Update (db w) user) as [[e'|u] d]; cbn; [discriminate|]. done.
  - destruct (ds_user_Delete (db w) id) as [[e'|] d]; cbn; [discriminate|]. done.
  - destruct (ds_post_IncrementViewCount (db w) postID) as [[e'|] d];
      cbn [fst snd value world events]; [discriminate|].
    intros _. cbv zeta. by destruct (0 <? _).
Qed.

End WriteProperties.

Section WriteTheorems.
Context {ds : DataSource} {codecs : Codecs}.

Lemma kv_redis_Keys (pattern : string) (w : World) :
  kv (world (redis_Keys pattern w)) = kv w.
Proof. reflexivity. Qed.

Lemma faults_redis_Keys (pattern : string) (w : World) :
  faults (world (redis_Keys pattern w)) = tl (faults w).
Proof. reflexivity. Qed.

Lemma eqb_decide (k key : string) :
  String.eqb k key = bool_decide (key = k).
Proof.
  destruct (String.eqb_spec k key) as [->|Hne].
  - by rewrite bool_decide_eq_true_2.
  - by rewrite bool_decide_eq_false_2.
Qed.

Lemma lookup_delete_key (m : gmap string Entry) (key k : string) :
  delete key m !! k = if String.eqb k key then None else m !! k.
Proof.
  rewrite lookup_delete, eqb_decide. by case_decide; case_bool_decide.
Qed.

(** The [IncrementViewCount] invalidation touches nothing but [post:{id}]
    and keys matching [posts:*], whatever the state of the connection. *)
Lemma after_post_invalidation_frame (postID : Z) (w1 : World) (k : string) :
  k <> getPostCacheKey postID -> glob_match "posts:*" k = false ->
  kv (after_post_invalidation postID w1) !! k = kv w1 !! k.
Proof.
  intros Hk Hg. unfold after_post_invalidation. cbv zeta.
  assert (Hfirst : kv (world (redis_Del [getPostCacheKey postID] w1)) !! k = kv w1 !! k).
  { rewrite kv_redis_Del. destruct (next_fault w1); [done|].
    cbn [foldr]. by rewrite lookup_delete_ne. }
  destruct (0 <? _); [|by rewrite kv_redis_Keys].
  rewrite kv_redis_Del, kv_redis_Keys.
  destruct (next_fault _); [done|].
  rewrite lookup_foldr_delete_not_elem_of; [done|].
  intros Hin%redis_Keys_sound. congruence.
Qed.

(** On a reachable store it removes exactly those keys. *)
Lemma after_post_invalidation_exact (postID : Z) (w1 : World) (k : string) :
  faults w1 = [] ->
  kv (after_post_invalidation postID w1) !! k =
  if String.eqb k (getPostCacheKey postID) || glob_match "posts:*" k
  then None else kv w1 !! k.
Proof.
  intros Hreach.
  destruct (String.eqb k (getPostCacheKey postID) || glob_match "posts:*" k) eqn:Hinv;
    [|apply orb_false_elim in Hinv as [Hk Hg];
      apply after_post_invalidation_frame; [by apply String.eqb_neq|done]].
  unfold after_post_invalidation. cbv zeta.
  set (w2 := world (redis_Del [getPostCacheKey postID] w1)).
  assert (Hf2 : next_fault w2 = false).
  { unfold next_fault, w2. by rewrite faults_redis_Del, Hreach. }
  assert (Hkv2 : kv w2 = delete (getPostCacheKey postID) (kv w1)).
  { unfold w2. rewrite kv_redis_Del. unfold next_fault. by rewrite Hreach. }
  assert (Hf3 : next_fault (world (redis_Keys "posts:*" w2)) = false).
  { unfold next_fault, w2. by rewrite faults_redis_Keys, faults_redis_Del, Hreach. }
  assert (Hcase : kv w2 !! k = None \/ k ∈ value (redis_Keys "posts:*" w2)).
  { destruct (kv w2 !! k) as [e|] eqn:He; [right|by left].
    apply redis_Keys_complete; [done|by rewrite He|].
    apply orb_prop in Hinv as [Hk|Hg]; [|done].
    apply String.eqb_eq in Hk as ->.
    by rewrite Hkv2, lookup_delete_eq in He. }
  destruct (0 <? _) eqn:Hlen.
  - rewrite kv_redis_Del, Hf3, kv_redis_Keys.
    destruct Hcase as [Hnone|Hin].
    + destruct (decide (k ∈ value (redis_Keys "posts:*" w2))).
      * by apply lookup_foldr_delete.
      * by rewrite lookup_foldr_delete_not_elem_of.
    + by apply lookup_foldr_delete.
  - rewrite kv_redis_Keys. destruct Hcase as [Hnone|Hin]; [done|].
    destruct (value (redis_Keys "posts:*" w2)); [by apply elem_of_nil in Hin|].
    apply Z.ltb_ge in Hlen. simpl length in Hlen. lia.
Qed.

Lemma faults_set_db (d : DB) (w : World) : faults (set_db d w) = faults w.
Proof. reflexivity. Qed.

Lemma kv_set_db (d : DB) (w : World) : kv (set_db d w) = kv w.
Proof. reflexivity. Qed.

(** C2, as the code implements it.  After a successful data source write
    each write method sends [DEL] for keys of its own invalidation set only,
    and on a reachable store it has removed exactly that set and left every
    other key as it was: [Create] removes [users:all] only; [Update] and
    [Delete] remove [user:{id}] and [users:all]; [IncrementViewCount]
    removes [post:{id}] and every key matching [posts:*]. *)
Theorem write_invalidates (q : WriteOp) (w : World) :
  fst (dsWrite q (db w)) = None ->
  value (cachedWrite q w) = None /\
  (forall keys, In (RedisDel keys) (events (cachedWrite q w)) ->
                Forall (fun k => invalidated q (db w) k = true) keys) /\
  (faults w = [] ->
   forall k, kv (world (cachedWrite q w)) !! k =
             if invalidated q (db w) k then None else kv w !! k).
Proof.
  intros Hok. destruct (cachedWrite_world q w Hok) as [Hval Hworld].
  split; [done|]. split.
  - intros keys. rewrite (cachedWrite_events q w Hok). intros [Hin|Hin]; [discriminate|].
    revert Hin. unfold invalidation_commands, invalidated.
    destruct q; cbv zeta.
    + intros [[= <-]|[]]. by repeat constructor.
    + intros [[= <-]|[[= <-]|[]]];
        (apply Forall_cons; split; [|constructor]);
        by rewrite ?String.eqb_refl, ?orb_true_r.
    + intros [[= <-]|[[= <-]|[]]];
        (apply Forall_cons; split; [|constructor]);
        by rewrite ?String.eqb_refl, ?orb_true_r.
    + set (found := value (redis_Keys "posts:*" _)).
      assert (Hfound : Forall (fun k => glob_match "posts:*" k = true) found).
      { apply Forall_forall. intros k Hk. by apply redis_Keys_sound in Hk. }
      clearbody found.
      intros [[= <-]|[Hin|Hin]].
      * apply Forall_cons; split; [|constructor]. by rewrite String.eqb_refl.
      * discriminate.
      * destruct (0 <? _); [|destruct Hin].
        destruct Hin as [[= <-]|[]].
        eapply Forall_impl; [exact Hfound|].
        intros k Hk. cbv beta. by rewrite Hk, orb_true_r.
  - intros Hreach k. rewrite Hworld. cbv zeta.
    destruct q; unfold invalidated.
    + rewrite kv_redis_Del. unfold next_fault. rewrite faults_set_db, Hreach.
      cbn [hd tl foldr]. by rewrite lookup_delete_key, kv_set_db.
    + rewrite kv_redis_Del. unfold next_fault.
      rewrite faults_redis_Del, faults_set_db, Hreach.
      cbn [hd tl foldr]. rewrite lookup_delete_key, kv_redis_Del. unfold next_fault.
      rewrite faults_set_db, Hreach. cbn [hd tl foldr].
      rewrite lookup_delete_key, kv_set_db.
      by destruct (String.eqb k "users:all"), (String.eqb k _).
    + rewrite kv_redis_Del. unfold next_fault.
      rewrite faults_redis_Del, faults_set_db, Hreach.
      cbn [hd tl foldr]. rewrite lookup_delete_key, kv_redis_Del. unfold next_fault.
      rewrite faults_set_db, Hreach. cbn [hd tl foldr].
      rewrite lookup_delete_key, kv_set_db.
      by destruct (String.eqb k "users:all"), (String.eqb k _).
    + by rewrite after_post_invalidation_exact.
Qed.

(** C6. When the data source write fails, the decorator returns that error,
    sends no command to the cache store, and leaves every cache entry in
    place. *)
Theorem failed_write_keeps_cache (q : WriteOp) (w : World) (e : error) :
  fst (dsWrite q (db w)) = Some e ->
  value (cachedWrite q w) = Some e /\
  kv (world (cachedWrite q w)) = kv w /\
  no_redis_events (events (cachedWrite q w)).
Proof.
  intros Hfail. rewrite (cachedWrite_failed q w e Hfail). simpl.
  repeat split. by repeat constructor.
Qed.

(** Whatever a cached write does, it changes no key outside its
    invalidation set. *)
Lemma cachedWrite_frame (q : WriteOp) (w : World) (k : string) :
  invalidated q (db w) k = false ->
  kv (world (cachedWrite q w)) !! k = kv w !! k.
Proof.
  intros Hinv.
  destruct (fst (dsWrite q (db w))) as [e|] eqn:Hres.
  { by rewrite (cachedWrite_failed q w e Hres). }
  destruct (cachedWrite_world q w Hres) as [_ ->]. cbv zeta.
  destruct q; unfold invalidated in Hinv.
  - rewrite kv_redis_Del. destruct (next_fault _); [done|]. cbn [foldr].
    by rewrite lookup_delete_key, Hinv.
  - apply orb_false_elim in Hinv as [H1 H2].
    rewrite kv_redis_Del. destruct (next_fault _); cbn [foldr];
      rewrite ?lookup_delete_key, ?H2, kv_redis_Del; (destruct (next_fault _); [done|]);
      cbn [foldr]; by rewrite lookup_delete_key, H1.
  - apply orb_false_elim in Hinv as [H1 H2].
    rewrite kv_redis_Del. destruct (next_fault _); cbn [foldr];
      rewrite ?lookup_delete_key, ?H2, kv_redis_Del; (destruct (next_fault _); [done|]);
      cbn [foldr]; by rewrite lookup_delete_key, H1.
  - apply orb_false_elim in Hinv as [H1 H2].
    rewrite after_post_invalidation_frame; [done|by apply String.eqb_neq|done].
Qed.

Lemma now_redis_Del (keys : list string) (w : World) :
  now (world (redis_Del keys w)) = now w.
Proof. unfold redis_Del. simpl. by destruct (next_fault w). Qed.

Lemma now_redis_Keys (pattern : string) (w : World) :
  now (world (redis_Keys pattern w)) = now w.
Proof. reflexivity. Qed.

(** A cached write does not move the clock. *)
Lemma now_cachedWrite (q : WriteOp) (w : World) :
  now (world (cachedWrite q w)) = now w.
Proof.
  destruct (fst (dsWrite q (db w))) as [e|] eqn:Hres.
  { by rewrite (cachedWrite_failed q w e Hres). }
  destruct (cachedWrite_world q w Hres) as [_ ->]. cbv zeta.
  destruct q; rewrite ?now_redis_Del; try reflexivity.
  unfold after_post_invalidation. cbv zeta.
  destruct (0 <? _); by rewrite ?now_redis_Del, now_redis_Keys, now_redis_Del.
Qed.

(** C9. [IncrementViewCount] on post [p] changes no key other than
    [post:{p}] and the keys matching [posts:*].  In particular every entry
    under a key [post:slug:{slug}] is left as it was, also the one of post
    [p] itself, so that until that entry expires a read by slug on a
    reachable store still returns the record cached before the increment,
    without asking the data source. *)
Theorem increment_leaves_slug_entries (postID : Z) (w : World) :
  let w' := world (cachedWrite (PostIncrementViewCount postID) w) in
  (forall k, kv w' !! k <> kv w !! k ->
             k = getPostCacheKey postID \/ glob_match "posts:*" k = true) /\
  (forall slug, kv w' !! cacheKey (PostFindBySlugWithDetails slug) =
                kv w !! cacheKey (PostFindBySlugWithDetails slug)) /\
  (forall slug e post dt,
     kv w !! cacheKey (PostFindBySlugWithDetails slug) = Some e ->
     json_Unmarshal (payload e) = Some post ->
     now w + dt < expires e ->
     next_fault w' = false ->
     let w'' := advance dt w' in
     value (cachedRead (PostFindBySlugWithDetails slug) w'') = inr (VPost post) /\
     no_ds_events (events (cachedRead (PostFindBySlugWithDetails slug) w''))).
Proof.
  cbv zeta.
  assert (Hslug : forall slug,
    kv (world (cachedWrite (PostIncrementViewCount postID) w))
      !! cacheKey (PostFindBySlugWithDetails slug) =
    kv w !! cacheKey (PostFindBySlugWithDetails slug)).
  { intros slug. apply cachedWrite_frame. unfold invalidated, cacheKey.
    rewrite slug_key_not_glob, orb_false_r.
    apply String.eqb_neq, slug_key_not_post_key. }
  split; [|split].
  - intros k Hchanged.
    destruct (String.eqb k (getPostCacheKey postID)) eqn:Hk;
      [left; by apply String.eqb_eq|].
    destruct (glob_match "posts:*" k) eqn:Hg; [by right|].
    exfalso. apply Hchanged, cachedWrite_frame. unfold invalidated.
    by rewrite Hk, Hg.
  - exact Hslug.
  - intros slug e post dt He Hdec Hlive Hreach.
    rewrite cachedRead_spec.
    assert (Hhit : cacheHit (PostFindBySlugWithDetails slug)
                     (advance dt (world (cachedWrite (PostIncrementViewCount postID) w)))
                   = Some (VPost post)).
    { unfold cacheHit, advance, next_fault in *. cbn [faults kv]. rewrite Hreach.
      rewrite (map_lookup_filter_Some_2 _ _ _ e).
      - unfold unmarshalFor. by rewrite Hdec.
      - by rewrite Hslug.
      - cbn [snd]. rewrite now_cachedWrite. by apply Z.ltb_lt. }
    rewrite Hhit. simpl. split; [done|]. by repeat constructor.
Qed.

End WriteTheorems.

(** ** The bypass selector *)

Section Handlers.
Context {ds : DataSource} {codecs : Codecs}.


Lemma UserHandler_selectUsecase_spec (h : UserHandler) (c : Request) :
  UserHandler_selectUsecase h c =
  if parseNoCache c then uh_directUserUsecase h else uh_userUsecase h.
Proof. reflexivity. Qed.

(** A read endpoint with the two usecases [cached]/[direct] behaves, on a
    request with the flag, as the endpoint that only knows the direct
    usecase, and otherwise as the one that only knows the cached usecase. *)
Lemma serveRead_selects (cu du : UserUsecase) (cp dp : PostUsecase)
    (ep : ReadEndpoint) (c : Request) :
  serveRead (NewUserHandler cu du) (NewPostHandlerBridge (NewPostHandlerV2 cp dp)) ep c =
  if parseNoCache c
  then serveRead (NewUserHandler du du) (NewPostHandlerBridge (NewPostHandlerV2 dp dp)) ep c
  else serveRead (NewUserHandler cu cu) (NewPostHandlerBridge (NewPostHandlerV2 cp cp)) ep c.
Proof.
  destruct ep; unfold serveRead, UserHandler_GetUsers, UserHandler_GetUserById,
    PostHandlerBridge_GetPosts, PostHandlerBridge_GetFeaturedPosts,
    PostHandlerBridge_GetPostByID, PostHandlerBridge_GetPostBySlug,
    PostHandlerBridge_GetPostsByCategory, PostHandlerBridge_GetPostsByTag,
    PostHandlerV2_GetPosts, PostHandlerV2_GetFeaturedPosts, PostHandlerV2_GetPostByID,
    PostHandlerV2_GetPostBySlug, PostHandlerV2_GetPostsByCategory,
    PostHandlerV2_GetPostsByTag;
    rewrite ?UserHandler_selectUsecase_spec;
    unfold PostHandlerV2_selectUsecase, NewUserHandler, NewPostHandlerBridge,
      NewPostHandlerV2;
    cbn [uh_userUsecase uh_directUserUsecase phb_handler ph_postUsecase
         ph_directPostUsecase];
    destruct (parseNoCache c); reflexivity.
Qed.

(** The same for the write endpoints of [UserHandler]: they follow the flag
    like the reads do. *)
Lemma serveWrite_selects (cu du : UserUsecase) (ep : WriteEndpoint) (c : Request) :
  serveWrite (NewUserHandler cu du) ep c =
  if parseNoCache c
  then serveWrite (NewUserHandler du du) ep c
  else serveWrite (NewUserHandler cu cu) ep c.
Proof.
  destruct ep; unfold serveWrite, UserHandler_CreateUser, UserHandler_UpdateUser,
    UserHandler_DeleteUser;
    rewrite ?UserHandler_selectUsecase_spec;
    unfold NewUserHandler; cbn [uh_userUsecase uh_directUserUsecase];
    destruct (parseNoCache c); reflexivity.
Qed.

(** The write endpoints of [UserHandlerV2] never look at the direct usecase. *)
Lemma serveWriteV2_ignores_direct (cu du du' : UserUsecase) (ep : WriteEndpoint)
    (c : Request) :
  serveWriteV2 (NewUserHandlerV2 cu du) ep c = serveWriteV2 (NewUserHandlerV2 cu du') ep c.
Proof. destruct ep; reflexivity. Qed.


(** *** Computations that stay away from the cache store *)







End Handlers.

Section Bypass.
Context {ds : DataSource} {codecs : Codecs}.






End Bypass.

(** ** Pagination of the post list operations *)

Section Pagination.
Context {ds : DataSource} {codecs : Codecs}.

Lemma wrap_in_range (z : Z) : GoInt.in_range z -> GoInt.wrap z = z.
Proof.
  unfold GoInt.in_range, GoInt.MinInt, GoInt.MaxInt, GoInt.wrap. intros H.
  rewrite Z.mod_small; lia.
Qed.

Lemma specified_limit_bounds (pageSize : Z) : 1 <= specified_limit pageSize <= 100.
Proof. unfold specified_limit. destruct (1 <=? pageSize) eqn:?, (pageSize <=? 100) eqn:?; simpl; lia. Qed.

Lemma specified_offset_nonneg (page pageSize : Z) : 0 <= specified_offset page pageSize.
Proof.
  unfold specified_offset. pose proof (specified_limit_bounds pageSize).
  destruct (1 <=? page) eqn:?; nia.
Qed.

(** What the code computes: the specified limit, and the specified offset
    wrapped into the 64-bit [int]. *)
Lemma code_limit (pageSize : Z) :
  (if (pageSize <? 1) || (100 <? pageSize) then 20 else pageSize) = specified_limit pageSize.
Proof.
  unfold specified_limit.
  destruct (pageSize <? 1) eqn:?, (100 <? pageSize) eqn:?,
    (1 <=? pageSize) eqn:?, (pageSize <=? 100) eqn:?; simpl; lia.
Qed.

Lemma code_offset (page pageSize : Z) :
  GoInt.in_range page ->
  GoInt.mul (GoInt.sub (if page <? 1 then 1 else page) 1) (specified_limit pageSize) =
  GoInt.wrap (specified_offset page pageSize).
Proof.
  intros Hr. unfold GoInt.mul, GoInt.sub, specified_offset.
  assert ((if page <? 1 then 1 else page) = (if 1 <=? page then page else 1)) as ->.
  { destruct (page <? 1) eqn:?, (1 <=? page) eqn:?; lia. }
  rewrite (wrap_in_range (_ - 1)); [reflexivity|].
  unfold GoInt.in_range, GoInt.MinInt, GoInt.MaxInt in *.
  destruct (1 <=? page) eqn:?; lia.
Qed.

(** The three list operations of the post usecase hand the repository the
    specified limit, and the specified offset as long as that product fits the
    machine integer. *)
Lemma pagination_without_overflow (slug : string) (page pageSize : Z) (w : World) :
  GoInt.in_range page ->
  specified_offset page pageSize <= GoInt.MaxInt ->
  let limit := specified_limit pageSize in
  let offset := specified_offset page pageSize in
  (exists r, hd_error (events (GetPosts main_directPostUsecase page pageSize w)) =
             Some (DSRead (PostFindAllWithDetails limit offset) r)) /\
  (slug <> "" ->
   (exists r, hd_error (events (GetPostsByCategory main_directPostUsecase slug page pageSize w)) =
              Some (DSRead (PostFindByCategoryWithDetails slug limit offset) r)) /\
   (exists r, hd_error (events (GetPostsByTag main_directPostUsecase slug page pageSize w)) =
              Some (DSRead (PostFindByTagWithDetails slug limit offset) r))) /\
  1 <= limit <= 100 /\ 0 <= offset.
Proof.
  intros Hr Hfit limit offset.
  pose proof (specified_offset_nonneg page pageSize) as Hnn.
  assert (Hoff : GoInt.mul (GoInt.sub (if page <? 1 then 1 else page) 1)
                           (specified_limit pageSize) = offset).
  { rewrite code_offset by done. apply wrap_in_range.
    unfold GoInt.in_range, GoInt.MinInt. fold offset. unfold offset. lia. }
  split; [|split; [|split; [apply specified_limit_bounds | exact Hnn]]].
  - unfold main_directPostUsecase, NewPostUsecase. cbn [GetPosts].
    unfold postUsecase_GetPosts. cbv zeta. rewrite code_limit, Hoff.
    cbn [postRepo basePostRepo mysql_NewPostRepository FindAllWithDetails].
    unfold bind, ds_query. cbn [events app hd_error]. eauto.
  - intros Hslug. apply String.eqb_neq in Hslug.
    unfold main_directPostUsecase, NewPostUsecase. cbn [GetPostsByCategory GetPostsByTag].
    unfold postUsecase_GetPostsByCategory, postUsecase_GetPostsByTag. rewrite Hslug.
    cbv zeta. rewrite code_limit, Hoff.
    cbn [postRepo basePostRepo mysql_NewPostRepository FindByCategoryWithDetails
         FindByTagWithDetails].
    unfold bind, ds_query. cbn [events app hd_error]. eauto.
Qed.

End Pagination.

(** ** The view-count increment of the post detail reads *)

Section ViewCount.
Context {ds : DataSource} {codecs : Codecs}.

(** The sequential part of the fire-and-forget increment: the value
    [GetPostByID] and [GetPostBySlug] return, the world they leave and the
    commands they issue do not depend on the repository's
    [IncrementViewCount].  (When and whether the goroutine they start
    runs is up to the Go scheduler and is not part of this model.) *)
Lemma detail_reads_ignore_increment (pr : PostRepository)
    (incr : Z -> M (option error)) (id : Z) (slug : string) (w : World) :
  let pr' := {| FindAllWithDetails := FindAllWithDetails pr;
                FindByIDWithDetails := FindByIDWithDetails pr;
                FindBySlugWithDetails := FindBySlugWithDetails pr;
                FindByCategoryWithDetails := FindByCategoryWithDetails pr;
                FindByTagWithDetails := FindByTagWithDetails pr;
                FindFeaturedWithDetails := FindFeaturedWithDetails pr;
                GetTotalCount := GetTotalCount pr;
                IncrementViewCount := incr |} in
  let byID r := GetPostByID (NewPostUsecase r) id w in
  let bySlug r := GetPostBySlug (NewPostUsecase r) slug w in
  value (byID pr') = value (byID pr) /\
  world (byID pr') = world (byID pr) /\
  events (byID pr') = events (byID pr) /\
  value (bySlug pr') = value (bySlug pr) /\
  world (bySlug pr') = world (bySlug pr) /\
  events (bySlug pr') = events (bySlug pr).
Proof.
  cbv zeta. unfold NewPostUsecase. cbn [GetPostByID GetPostBySlug].
  unfold postUsecase_GetPostByID, postUsecase_GetPostBySlug, bind.
  cbn [postRepo FindByIDWithDetails FindBySlugWithDetails IncrementViewCount].
  destruct (id <=? 0) eqn:Hid, (String.eqb slug "") eqn:Hslug; cbn [value world events spawned ret];
    try destruct (value (FindByIDWithDetails pr id w));
    try destruct (value (FindBySlugWithDetails pr slug w));
    cbn [value world events spawned ret go app]; repeat split.
Qed.

End ViewCount.

(** ** Scenarios on the test double *)

(** Cold read of user 1, then a second read one minute later. *)
Lemma read_through_correct_witness :
  kv Mock.cold !! cacheKey (UserFindByID 1) = None /\
  value (mock_cachedRead (UserFindByID 1) Mock.cold) =
    value (mock_directRead (UserFindByID 1) Mock.cold) /\
  let w2 := advance Minute (world (mock_cachedRead (UserFindByID 1) Mock.cold)) in
  value (mock_cachedRead (UserFindByID 1) w2) = inr (VUser Mock.alice) /\
  no_ds_events (events (mock_cachedRead (UserFindByID 1) w2)).
Proof.
  destruct (read_through_correct (ds := Mock.ds) (codecs := Mock.codecs)
              (UserFindByID 1) Mock.cold eq_refl) as [Hfirst Hsecond].
  split; [reflexivity|]. split; [exact Hfirst|].
  apply (Hsecond (VUser Mock.alice) (VUser Mock.alice) "{id:1,name:A}" Minute).
  - reflexivity.
  - reflexivity.
  - reflexivity.
  - reflexivity.
  - unfold Minute. lia.
Defined.

(** A corrupt payload under [user:1] and a database that is down: the
    caller sees the database error, and only that. *)
Lemma cache_failures_never_surface_witness :
  cacheHit (ds := Mock.ds) (codecs := Mock.codecs) (UserFindByID 1) Mock.corrupt_and_down = None /\
  value (mock_cachedRead (UserFindByID 1) Mock.corrupt_and_down) =
    inl (errors_New "connection refused") /\
  kv (world (mock_cachedRead (UserFindByID 1) Mock.corrupt_and_down)) = kv Mock.corrupt_and_down.
Proof.
  destruct (cache_failures_never_surface (ds := Mock.ds) (codecs := Mock.codecs)
              (UserFindByID 1) Mock.corrupt_and_down) as (_ & Hmiss & _ & Herr).
  assert (Hhit : cacheHit (ds := Mock.ds) (codecs := Mock.codecs)
                   (UserFindByID 1) Mock.corrupt_and_down = None) by reflexivity.
  split; [exact Hhit|]. split.
  - rewrite (Hmiss Hhit). reflexivity.
  - apply (Herr (errors_New "connection refused")). rewrite (Hmiss Hhit). reflexivity.
Defined.

(** C2, as stated, fails for [Create]: with an entry under [user:3] in the
    cache and two users in the database, creating the third user leaves
    [user:3] in place although the specified invalidation set contains it. *)
Lemma create_leaves_entity_key :
  ~ (forall (q : WriteOp) (w : World (ds := Mock.ds)),
       fst (dsWrite q (db w)) = None -> faults w = [] ->
       forall k, kv (world (mock_cachedWrite q w)) !! k =
                 if invalidated_as_specified q (db w) k then None else kv w !! k).
Proof.
  intros H.
  specialize (H (UserCreate Mock.carol) Mock.stale_user_3 eq_refl eq_refl "user:3").
  vm_compute in H. discriminate H.
Qed.

(** Deleting user 1 on the warm cache removes [user:1] and leaves the slug
    entry of the post. *)
Lemma write_invalidates_witness :
  fst (dsWrite (UserDelete 1) (db Mock.warm)) = None /\
  faults Mock.warm = [] /\
  kv (world (mock_cachedWrite (UserDelete 1) Mock.warm)) !! "user:1" = None /\
  kv (world (mock_cachedWrite (UserDelete 1) Mock.warm)) !! "post:slug:hello" =
    kv Mock.warm !! "post:slug:hello".
Proof.
  destruct (write_invalidates (ds := Mock.ds) (codecs := Mock.codecs)
              (UserDelete 1) Mock.warm eq_refl) as (_ & _ & Hkv).
  split; [reflexivity|]. split; [reflexivity|]. split.
  - rewrite (Hkv eq_refl "user:1"). reflexivity.
  - rewrite (Hkv eq_refl "post:slug:hello"). reflexivity.
Defined.

(** The database is down: the update fails and the warm cache survives. *)
Lemma failed_write_keeps_cache_witness :
  fst (dsWrite (UserUpdate Mock.alice_renamed) (db Mock.warm_but_down)) =
    Some (errors_New "connection refused") /\
  value (mock_cachedWrite (UserUpdate Mock.alice_renamed) Mock.warm_but_down) =
    Some (errors_New "connection refused") /\
  kv (world (mock_cachedWrite (UserUpdate Mock.alice_renamed) Mock.warm_but_down)) =
    kv Mock.warm_but_down.
Proof.
  destruct (failed_write_keeps_cache (ds := Mock.ds) (codecs := Mock.codecs)
              (UserUpdate Mock.alice_renamed) Mock.warm_but_down
              (errors_New "connection refused") eq_refl) as (Hval & Hkv & _).
  split; [reflexivity|]. split; [exact Hval | exact Hkv].
Defined.

(** Four minutes after the view count of post 1 went from 7 to 8 in the
    database, the read by slug still serves the record with 7 views. *)
Lemma increment_leaves_slug_entries_witness :
  let w' := advance (4 * Minute)
              (world (mock_cachedWrite (PostIncrementViewCount 1) Mock.warm)) in
  value (mock_directRead (PostFindBySlugWithDetails "hello") w') =
    inr (VPost (Mock.bump Mock.hello)) /\
  value (mock_cachedRead (PostFindBySlugWithDetails "hello") w') = inr (VPost Mock.hello) /\
  no_ds_events (events (mock_cachedRead (PostFindBySlugWithDetails "hello") w')).
Proof.
  destruct (increment_leaves_slug_entries (ds := Mock.ds) (codecs := Mock.codecs)
              1 Mock.warm) as (_ & _ & Hstale).
  split; [reflexivity|].
  apply (Hstale "hello" (mkEntry (Mock.encode_post Mock.hello) (5 * Minute)) Mock.hello
           (4 * Minute));
    reflexivity.
Defined.


(** C3 fails on [UserHandler]: its write endpoints pick the usecase with
    the same selector as the reads.  [PUT /users/1?no_cache=true] renames
    user 1 to B in the database and sends no command to the cache store, so
    the entry [user:1] written before the update survives and the next
    cache-backed [GET /users/1] still answers A.  [UserHandlerV2] on the
    same request invalidates the entry. *)
Theorem UserHandler_write_follows_no_cache :
  let uh := main_userHandler (ds := Mock.ds) (codecs := Mock.codecs) in
  let ph := main_postHandler (ds := Mock.ds) (codecs := Mock.codecs) in
  let uh2 := main_userHandlerV2 (ds := Mock.ds) (codecs := Mock.codecs) in
  let r := serveWrite uh (PUT_users_id 1) (Mock.rename_request "true") Mock.warm in
  let r2 := serveWriteV2 uh2 (PUT_users_id 1) (Mock.rename_request "true") Mock.warm in
  value r = {| status := StatusOK; body := UserJSON Mock.alice_renamed |} /\
  events r = [DSRead (UserFindByID 1) None; DSWrite (UserUpdate Mock.alice_renamed) None] /\
  Mock.users (db (world r)) = [Mock.alice_renamed; Mock.bob] /\
  payload <$> kv (world r) !! "user:1" = Some (Mock.encode_user Mock.alice) /\
  body (value (serveRead uh ph (GET_users_id 1) (Mock.request "") (world r))) =
    UserJSON Mock.alice /\
  kv (world r2) !! "user:1" = None /\
  body (value (serveRead uh ph (GET_users_id 1) (Mock.request "") (world r2))) =
    UserJSON Mock.alice_renamed.
Proof. vm_compute. repeat split. Qed.

(** C10 fails by integer overflow: for page 4611686018427387905 and page
    size 2, both valid [int] arguments (and reachable through
    [GET /posts?page=4611686018427387905&pageSize=2]), the product
    [(page - 1) * pageSize] is 2^63, and the repository receives the offset
    -9223372036854775808. *)
Theorem pagination_offset_overflows :
  let page := 4611686018427387905 in
  let pageSize := 2 in
  let uc := main_directPostUsecase (ds := Mock.ds) in
  let ph := main_postHandler (ds := Mock.ds) (codecs := Mock.codecs) in
  GoInt.in_range page /\
  specified_limit pageSize = 2 /\
  specified_offset page pageSize = 9223372036854775808 /\
  events (GetPosts uc page pageSize Mock.cold) =
    [DSRead (PostFindAllWithDetails 2 (-9223372036854775808)) None;
     DSRead PostGetTotalCount None] /\
  events (GetPostsByCategory uc "go" page pageSize Mock.cold) =
    [DSRead (PostFindByCategoryWithDetails "go" 2 (-9223372036854775808)) None] /\
  events (GetPostsByTag uc "go" page pageSize Mock.cold) =
    [DSRead (PostFindByTagWithDetails "go" 2 (-9223372036854775808)) None] /\
  hd_error (events (PostHandlerBridge_GetPosts ph
                      (Mock.page_request "4611686018427387905" "2") Mock.cold)) =
    Some (RedisGet "posts:all:limit=2:offset=-9223372036854775808").
Proof.
  cbv zeta. split; [unfold GoInt.in_range, GoInt.MinInt, GoInt.MaxInt; lia|].
  vm_compute. repeat split.
Qed.

(** * Properties of the further parts *)

(** ** The decorators: how reads and writes compose *)

Section CacheComposition.
Context {ds : DataSource} {codecs : Codecs}.

(** The keyspace a successful write leaves on a reachable store. *)
Lemma cachedWrite_kv_reachable (q : WriteOp) (w : World) (k : string) :
  fst (dsWrite q (db w)) = None -> faults w = [] ->
  kv (world (cachedWrite q w)) !! k =
  if invalidated q (db w) k then None else kv w !! k.
Proof.
  intros Hok Hreach. destruct (cachedWrite_world q w Hok) as [_ ->]. cbv zeta.
  destruct q; unfold invalidated.
  - rewrite kv_redis_Del. unfold next_fault. rewrite faults_set_db, Hreach.
    cbn [hd tl foldr]. by rewrite lookup_delete_key, kv_set_db.
  - rewrite kv_redis_Del. unfold next_fault.
    rewrite faults_redis_Del, faults_set_db, Hreach.
    cbn [hd tl foldr]. rewrite lookup_delete_key, kv_redis_Del. unfold next_fault.
    rewrite faults_set_db, Hreach. cbn [hd tl foldr].
    rewrite lookup_delete_key, kv_set_db.
    by destruct (String.eqb k "users:all"), (String.eqb k _).
  - rewrite kv_redis_Del. unfold next_fault.
    rewrite faults_redis_Del, faults_set_db, Hreach.
    cbn [hd tl foldr]. rewrite lookup_delete_key, kv_redis_Del. unfold next_fault.
    rewrite faults_set_db, Hreach. cbn [hd tl foldr].
    rewrite lookup_delete_key, kv_set_db.
    by destruct (String.eqb k "users:all"), (String.eqb k _).
  - by rewrite after_post_invalidation_exact.
Qed.

Lemma db_after_post_invalidation (postID : Z) (w1 : World) :
  db (after_post_invalidation postID w1) = db w1.
Proof.
  unfold after_post_invalidation. cbv zeta.
  destruct (0 <? _); rewrite ?db_redis_Del; unfold redis_Keys; cbn [world db after_command set_faults];
    by rewrite ?db_redis_Del.
Qed.

(** A cached write leaves the database the data source's write left. *)
Lemma db_cachedWrite (q : WriteOp) (w : World) :
  db (world (cachedWrite q w)) = snd (dsWrite q (db w)).
Proof.
  destruct (fst (dsWrite q (db w))) as [e|] eqn:Hres.
  { by rewrite (cachedWrite_failed q w e Hres). }
  destruct (cachedWrite_world q w Hres) as [_ ->]. cbv zeta.
  destruct q; rewrite ?db_redis_Del, ?db_after_post_invalidation; reflexivity.
Qed.

(** X1. Invalidation, then miss: after a successful write on a reachable
    store, every read whose key the write invalidates finds no entry, asks
    the data source and returns its current answer. *)
Theorem invalidation_forces_fresh_read (q : WriteOp) (r : ReadOp) (w : World) :
  fst (dsWrite q (db w)) = None ->
  faults w = [] ->
  invalidated q (db w) (cacheKey r) = true ->
  let w' := world (cachedWrite q w) in
  kv w' !! cacheKey r = None /\
  value (cachedRead r w') = dsRead r (snd (dsWrite q (db w))) /\
  In (DSRead r (err_of (dsRead r (snd (dsWrite q (db w)))))) (events (cachedRead r w')).
Proof.
  intros Hok Hreach Hinv w'.
  assert (Hgone : kv w' !! cacheKey r = None).
  { unfold w'. by rewrite cachedWrite_kv_reachable, Hinv. }
  split; [exact Hgone|].
  rewrite cachedRead_spec, (cold_is_miss r w' Hgone).
  unfold w'. rewrite db_cachedWrite.
  destruct (dsRead r (snd (dsWrite q (db w)))); simpl; split; auto.
Qed.

Lemma key_eqb_id (prefix : string) (a b : Z) :
  String.eqb (prefix +:+ Sprintf_d a) (prefix +:+ Sprintf_d b) = (a =? b).
Proof.
  destruct (Z.eqb_spec a b) as [->|Hne]; [apply String.eqb_refl|].
  apply String.eqb_neq. intros H. apply (inj (String.app prefix)) in H.
  by apply Sprintf_d_inj in H.
Qed.

Lemma glob_posts_star_false (k : string) :
  (forall rest, k <> "posts:" +:+ rest) -> glob_match "posts:*" k = false.
Proof.
  intros Hk. apply not_true_is_false. intros [rest ->]%glob_posts_star. by eapply Hk.
Qed.

Ltac other_namespace :=
  let H := fresh in
  intros; unfold getCacheKey, getPostCacheKey; intros H; cbn in H; discriminate H.

Ltac key_false :=
  first
    [ apply String.eqb_neq; other_namespace
    | apply glob_posts_star_false; other_namespace ].

Ltac key_true :=
  first
    [ apply String.eqb_refl
    | apply glob_posts_star; eexists; reflexivity ].

Lemma key_is_users_all (r : ReadOp) :
  String.eqb (cacheKey r) "users:all" = match r with UserFindAll => true | _ => false end.
Proof. destruct r; unfold cacheKey; first [key_true | key_false]. Qed.

Lemma key_is_user (r : ReadOp) (id : Z) :
  String.eqb (cacheKey r) (getCacheKey id) =
  match r with UserFindByID id' => id' =? id | _ => false end.
Proof.
  destruct r; unfold cacheKey; try key_false.
  apply (key_eqb_id "user:").
Qed.

Lemma key_is_post (r : ReadOp) (postID : Z) :
  String.eqb (cacheKey r) (getPostCacheKey postID) =
  match r with PostFindByIDWithDetails id => id =? postID | _ => false end.
Proof.
  destruct r; unfold cacheKey; try key_false.
  - apply (key_eqb_id "post:").
  - apply String.eqb_neq, slug_key_not_post_key.
Qed.

Lemma key_is_post_list (r : ReadOp) :
  glob_match "posts:*" (cacheKey r) =
  match r with
  | PostFindAllWithDetails _ _ | PostFindByCategoryWithDetails _ _ _
  | PostFindByTagWithDetails _ _ _ | PostFindFeaturedWithDetails _
  | PostGetTotalCount => true
  | _ => false
  end.
Proof. destruct r; unfold cacheKey; first [key_true | key_false]. Qed.

(** X2. Which cached reads each write method invalidates: a user [Create]
    only the list of all users; a user [Update] or [Delete] the list and the
    read of that user by ID; [IncrementViewCount] the read of that post by
    ID and every list, featured and count read of posts.  No write
    invalidates a read by slug, and no write on one entity type touches a
    key of the other. *)
Theorem invalidated_reads (q : WriteOp) (d : DB) (r : ReadOp) :
  invalidated q d (cacheKey r) = affects q d r.
Proof.
  destruct q; unfold invalidated;
    rewrite ?key_is_users_all, ?key_is_user, ?key_is_post, ?key_is_post_list;
    destruct r; cbn [affects]; rewrite ?orb_false_r; reflexivity.
Qed.

Lemma populated_reachable (key data : string) (ttl : Z) (w : World) :
  faults w = [] ->
  populated key data ttl w =
  set_kv (<[key := mkEntry data (now w + ttl)]> (kv w)) w.
Proof.
  intros Hreach. unfold populated, redis_Set, next_fault, after_command, set_faults, set_kv.
  cbn [world faults kv db now]. rewrite Hreach. cbn [tl hd]. by rewrite <- Hreach.
Qed.

Lemma after_command_reachable (w : World) : faults w = [] -> after_command w = w.
Proof.
  intros Hreach. unfold after_command, set_faults. rewrite Hreach. cbn [tl].
  rewrite <- Hreach. by destruct w.
Qed.

Lemma cachedRead_keeps_db (q : ReadOp) (w : World) : db (world (cachedRead q w)) = db w.
Proof.
  rewrite cachedRead_spec. destruct (cacheHit q w); [reflexivity|].
  destruct (dsRead q (db w)); [reflexivity|].
  unfold populated, redis_Set. cbn [world]. by destruct (next_fault _).
Qed.

Lemma cachedRead_reachable (q : ReadOp) (w : World) :
  faults w = [] -> faults (world (cachedRead q w)) = [].
Proof.
  intros Hreach. rewrite cachedRead_spec.
  destruct (cacheHit q w); cbn [world]; [by rewrite after_command_reachable|].
  destruct (dsRead q (db w)); cbn [world]; [by rewrite after_command_reachable|].
  by rewrite populated_reachable.
Qed.

Lemma cachedRead_spawns_nothing (q : ReadOp) (w : World) : spawned (cachedRead q w) = [].
Proof.
  rewrite cachedRead_spec. destruct (cacheHit q w); [reflexivity|].
  by destruct (dsRead q (db w)).
Qed.

(** X3. A miss populates: when a read on a reachable store finds no usable
    entry (none, or one that does not decode) and the data source answers,
    the key afterwards holds the serialized answer, due to expire five
    minutes later; a payload that did not decode is thereby replaced. *)
Theorem miss_populates (q : ReadOp) (w : World) (v : Value) :
  faults w = [] ->
  cacheHit q w = None ->
  dsRead q (db w) = inr v ->
  kv (world (cachedRead q w)) !! cacheKey q =
    Some (mkEntry (default "" (marshalValue v)) (now w + 5 * Minute)) /\
  forall k, k <> cacheKey q -> kv (world (cachedRead q w)) !! k = kv w !! k.
Proof.
  intros Hreach Hmiss Hread. rewrite cachedRead_spec, Hmiss, Hread. cbn [world].
  rewrite populated_reachable by done. cbn [kv set_kv]. split.
  - apply lookup_insert_eq.
  - intros k Hk. by apply lookup_insert_ne.
Qed.

(** X4. Expiry: an entry a read wrote is gone five minutes later.  After a
    populating read on a reachable store, a read of the same key five
    minutes or more later finds nothing and asks the data source again. *)
Theorem entry_expires_after_ttl (q : ReadOp) (w : World) (v : Value) (dt : Z) :
  faults w = [] ->
  cacheHit q w = None ->
  dsRead q (db w) = inr v ->
  5 * Minute <= dt ->
  let w2 := advance dt (world (cachedRead q w)) in
  kv w2 !! cacheKey q = None /\
  value (cachedRead q w2) = dsRead q (db w) /\
  In (DSRead q None) (events (cachedRead q w2)).
Proof.
  intros Hreach Hmiss Hread Hdt w2.
  assert (Hgone : kv w2 !! cacheKey q = None).
  { unfold w2, advance. cbn [kv]. apply map_lookup_filter_None_2. right.
    intros e He. cbn [snd].
    rewrite cachedRead_spec, Hmiss, Hread in He |- *. cbn [world] in *.
    rewrite populated_reachable in He |- * by done. cbn [kv set_kv now] in *.
    rewrite lookup_insert_eq in He. injection He as <-. cbn [expires].
    intros Hlt%Z.ltb_lt. lia. }
  split; [exact Hgone|].
  rewrite cachedRead_spec, (cold_is_miss q w2 Hgone).
  assert (Hdb : db w2 = db w) by (unfold w2, advance; cbn [db]; apply cachedRead_keeps_db).
  rewrite Hdb, Hread. cbn [value events]. split; [reflexivity|]. right. by left.
Qed.

(** X5. What a cached read leaves alone: it never changes the database or
    the clock, starts no goroutine, changes no key other than its own, sends
    no [DEL] or [KEYS], and on a hit changes no key at all. *)
Theorem cached_read_frame (q : ReadOp) (w : World) :
  let r := cachedRead q w in
  db (world r) = db w /\
  now (world r) = now w /\
  spawned r = [] /\
  (forall k, k <> cacheKey q -> kv (world r) !! k = kv w !! k) /\
  (forall ev, In ev (events r) ->
     ev = RedisGet (cacheKey q) \/
     ev = DSRead q (err_of (dsRead q (db w))) \/
     exists data, ev = RedisSet (cacheKey q) data (5 * Minute)) /\
  (forall v, cacheHit q w = Some v -> kv (world r) = kv w).
Proof.
  cbv zeta. split; [apply cachedRead_keeps_db|].
  split; [|split; [apply cachedRead_spawns_nothing|]].
  { rewrite cachedRead_spec. destruct (cacheHit q w); [reflexivity|].
    destruct (dsRead q (db w)); [reflexivity|].
    unfold populated, redis_Set. cbn [world]. by destruct (next_fault _). }
  rewrite cachedRead_spec. destruct (cacheHit q w) as [v|].
  { cbn [world events]. repeat split; try done. intros ev [<-|[]]. by left. }
  destruct (dsRead q (db w)) as [e|v]; cbn [world events err_of].
  - repeat split; try done. intros ev [<-|[<-|[]]]; auto.
  - repeat split; try done.
    + intros k Hk. unfold populated, redis_Set. cbn [world].
      destruct (next_fault _); [reflexivity|]. cbn [kv set_kv after_command set_faults].
      by apply lookup_insert_ne.
    + intros ev [<-|[<-|[<-|[]]]]; eauto.
Qed.

(** A successful [GetPostByID] on the cache-backed usecase leaves the world
    of the cached read and has started the increment as its one goroutine. *)
Lemma GetPostByID_cached_success (id : Z) (w : World) (post : PostWithDetails) :
  value (GetPostByID main_postUsecase id w) = inr post ->
  world (GetPostByID main_postUsecase id w) =
    world (cachedRead (PostFindByIDWithDetails id) w) /\
  spawned (GetPostByID main_postUsecase id w) =
    [fun w' => (world (cachedWrite (PostIncrementViewCount id) w'),
                events (cachedWrite (PostIncrementViewCount id) w'))].
Proof.
  unfold main_postUsecase, NewPostUsecase. cbn [GetPostByID].
  unfold postUsecase_GetPostByID. cbn [postRepo].
  destruct (id <=? 0); [discriminate|].
  pose proof (cachedRead_spawns_nothing (PostFindByIDWithDetails id) w) as Hspawn.
  change (spawned (cachedRead (PostFindByIDWithDetails id) w)) with
    (spawned (FindByIDWithDetails cachedPostRepo id w)) in Hspawn.
  change (world (cachedRead (PostFindByIDWithDetails id) w)) with
    (world (FindByIDWithDetails cachedPostRepo id w)).
  unfold bind. cbn [value world events spawned].
  set (r1 := FindByIDWithDetails cachedPostRepo id w) in *.
  destruct (value r1) as [e|p]; cbn [value world events spawned ret go]; [discriminate|].
  intros _. rewrite Hspawn. split; reflexivity.
Qed.

(** X6. The cache of the post detail read by ID does not outlive the read:
    [GetPostByID] on the cache-backed usecase starts one goroutine, and once
    that goroutine has incremented the view count on a reachable store the
    entry [post:{id}] the read has just served or written is gone: the next
    read by ID is a miss. *)
Theorem detail_read_by_id_drops_its_entry (id : Z) (w : World) (post : PostWithDetails) :
  faults w = [] ->
  value (GetPostByID main_postUsecase id w) = inr post ->
  fst (ds_post_IncrementViewCount (db w) id) = None ->
  let r := GetPostByID main_postUsecase id w in
  length (spawned r) = 1%nat /\
  kv (run_tasks (spawned r) (world r)) !! getPostCacheKey id = None /\
  cacheHit (PostFindByIDWithDetails id) (run_tasks (spawned r) (world r)) = None.
Proof.
  intros Hreach Hval Hincr. cbv zeta.
  destruct (GetPostByID_cached_success id w post Hval) as [-> ->].
  split; [reflexivity|].
  match goal with |- ?A /\ _ => assert (Hgone : A); [|split; [exact Hgone|]] end;
    [|by apply cold_is_miss].
  cbn [run_tasks fold_left fst].
  set (w1 := world (cachedRead (PostFindByIDWithDetails id) w)).
  assert (Hdb : db w1 = db w) by apply cachedRead_keeps_db.
  assert (Hr1 : faults w1 = []) by (by apply cachedRead_reachable).
  rewrite cachedWrite_kv_reachable; [|by cbn [dsWrite]; rewrite Hdb|done].
  cbn [invalidated]. by rewrite String.eqb_refl.
Qed.

End CacheComposition.

(** ** The usecases *)

Section UsecaseProperties.
Context {ds : DataSource} {codecs : Codecs}.

Lemma UpdateUser_run (u : userUsecase) (id : Z) (name email : option string)
    (age : option Z) (w : World) :
  userUsecase_UpdateUser u id name email age w =
  (let* res := FindByID (userRepo u) id in
   match res with
   | inl err => ret (inl err)
   | inr user =>
       let* res' := Update (userRepo u) (with_supplied user name email age) in
       match res' with
       | inl err => ret (inl err)
       | inr user' => ret (inr user')
       end
   end) w.
Proof.
  unfold userUsecase_UpdateUser, bind.
  destruct (value (FindByID (userRepo u) id w)) as [e|user]; [reflexivity|].
  by destruct user, name, email, age.
Qed.

(** X7. [UpdateUser] is a read-modify-write on the repository it is given.
    Through the direct usecase: when the user is not found (or the read
    fails) the error is returned as it is and no write is issued; otherwise
    exactly one [Update] is issued, for the record read with the supplied
    fields replaced and every other field, the ID included, kept. *)
Theorem UpdateUser_direct (id : Z) (name email : option string) (age : option Z)
    (w : World) :
  let r := UpdateUser main_directUserUsecase id name email age w in
  match ds_user_FindByID (db w) id with
  | inl e =>
      value r = inl e /\ world r = w /\ events r = [DSRead (UserFindByID id) (Some e)]
  | inr user =>
      let user' := with_supplied user name email age in
      value r = fst (ds_user_Update (db w) user') /\
      db (world r) = snd (ds_user_Update (db w) user') /\
      events r = [DSRead (UserFindByID id) None;
                  DSWrite (UserUpdate user') (err_of (fst (ds_user_Update (db w) user')))]
  end.
Proof.
  cbv zeta. unfold main_directUserUsecase, NewUserUsecase. cbn [UpdateUser].
  rewrite UpdateUser_run. cbn [userRepo baseUserRepo mysql_NewUserRepository
    FindByID Update].
  unfold bind, ds_query, ds_exec, ret. cbn [value world events spawned].
  destruct (ds_user_FindByID (db w) id) as [e|user]; cbn [err_of value world events app].
  - done.
  - destruct (ds_user_Update (db w) (with_supplied user name email age)) as [[e|u] d];
      cbn [fst snd value world events app err_of db set_db]; done.
Qed.

(** X8. Through the cache-backed usecase [UpdateUser] takes the record from
    the cache when there is a usable entry: the data source is not read, and
    the record written is the cached one with the supplied fields replaced,
    whatever the database holds for that user. *)
Theorem UpdateUser_cached_hit (id : Z) (name email : option string) (age : option Z)
    (w : World) (user : User) :
  cacheHit (UserFindByID id) w = Some (VUser user) ->
  let r := UpdateUser main_userUsecase id name email age w in
  let user' := with_supplied user name email age in
  value r = fst (ds_user_Update (db w) user') /\
  (exists rest,
     events r = RedisGet (getCacheKey id) ::
                DSWrite (UserUpdate user') (err_of (fst (ds_user_Update (db w) user'))) ::
                rest /\
     no_ds_events rest).
Proof.
  intros Hhit. cbv zeta.
  pose proof (cachedRead_spec (UserFindByID id) w) as Hspec. rewrite Hhit in Hspec.
  assert (Hfind : FindByID cachedUserRepo id w =
                  mkRes (inr user) (after_command w) [RedisGet (getCacheKey id)] []).
  { revert Hspec. unfold cachedRead, repoRead, mapM.
    destruct (FindByID cachedUserRepo id w) as [[e|u] w1 evs sp]; cbn; [discriminate|].
    by intros [= -> -> -> ->]. }
  set (user' := with_supplied user name email age).
  set (r2 := cachedUser_Update {| cu_baseRepo := baseUserRepo; cu_ttl := 5 * Minute |}
               user' (after_command w)).
  assert (Hrun : UpdateUser main_userUsecase id name email age w =
                 mkRes (value r2) (world r2)
                       (RedisGet (getCacheKey id) :: events r2) (spawned r2)).
  { unfold main_userUsecase, NewUserUsecase. cbn [UpdateUser].
    rewrite UpdateUser_run. cbn [userRepo]. unfold bind at 1. rewrite Hfind.
    cbn [value world events spawned app].
    unfold bind, ret. cbn beta.
    change (Update cachedUserRepo (with_supplied user name email age) (after_command w))
      with r2.
    destruct (value r2); cbn [value world events spawned]; by rewrite ?app_nil_r. }
  rewrite Hrun. cbn [value events].
  assert (Hr2 : value r2 = fst (ds_user_Update (db w) user') /\
                exists rest,
                  events r2 = DSWrite (UserUpdate user')
                                (err_of (fst (ds_user_Update (db w) user'))) :: rest /\
                  no_ds_events rest).
  { subst r2. unfold cachedUser_Update. cbn [cu_baseRepo baseUserRepo
      mysql_NewUserRepository Update].
    unfold bind, ds_exec.
    cbn [value world events spawned db after_command set_faults].
    destruct (ds_user_Update (db w) user') as [[e|u] d]; cbn [fst snd err_of].
    - cbn [ret value world events app]. split; [reflexivity|]. exists [].
      split; [reflexivity|constructor].
    - unfold redis_Del, ret. cbn [value world events app]. split; [reflexivity|].
      eexists. split; [reflexivity|]. unfold no_ds_events. by repeat constructor. }
  destruct Hr2 as [Hv (rest & Hev & Hrest)]. split; [exact Hv|].
  exists rest. by rewrite Hev.
Qed.

(** X9. [PUT /users/{id}] for a user that is neither cached nor in the
    database changes nothing: the handler answers 404 when the data source
    reports no rows (500 for any other error), having sent one [GET] to the
    store and one query to the data source, and neither a write nor an
    invalidation. *)
Theorem update_of_missing_user_writes_nothing (c : Request) (id : Z) (w : World)
    (req : UpdateUserRequest) (e : error) :
  Bind_UpdateUserRequest c = Some req ->
  cacheHit (UserFindByID id) w = None ->
  ds_user_FindByID (db w) id = inl e ->
  let r := UserHandlerV2_UpdateUser main_userHandlerV2 c id w in
  value r =
    (if errors_Is_ErrNoRows e
     then {| status := 404; body := ErrorMessage "User not found" |}
     else {| status := 500; body := ErrorMessage "Failed to update user" |}) /\
  events r = [RedisGet (getCacheKey id); DSRead (UserFindByID id) (Some e)] /\
  spawned r = [] /\
  db (world r) = db w /\ kv (world r) = kv w.
Proof.
  intros Hbind Hmiss Hread.
  pose proof (cachedRead_spec (UserFindByID id) w) as Hspec.
  rewrite Hmiss in Hspec. cbn [dsRead] in Hspec. rewrite Hread in Hspec.
  cbn [inr_map] in Hspec.
  assert (Hfind : FindByID cachedUserRepo id w =
                  mkRes (inl e) (after_command w)
                        [RedisGet (getCacheKey id); DSRead (UserFindByID id) (Some e)] []).
  { revert Hspec. unfold cachedRead, repoRead, mapM.
    destruct (FindByID cachedUserRepo id w) as [[e'|u] w1 evs sp]; cbn; [|discriminate].
    by intros [= -> -> -> ->]. }
  assert (Hrun : UpdateUser main_userUsecase id (UpdateUserRequest_Name req)
                   (UpdateUserRequest_Email req) (UpdateUserRequest_Age req) w =
                 mkRes (inl e) (after_command w)
                       [RedisGet (getCacheKey id); DSRead (UserFindByID id) (Some e)] []).
  { unfold main_userUsecase, NewUserUsecase. cbn [UpdateUser].
    rewrite UpdateUser_run. cbn [userRepo]. unfold bind. by rewrite Hfind. }
  cbv zeta. unfold UserHandlerV2_UpdateUser. rewrite Hbind. cbv zeta.
  unfold main_userHandlerV2, NewUserHandlerV2. cbn [uh2_userUsecase].
  unfold bind. rewrite Hrun. cbn [value world events spawned].
  unfold JSON_response, ret, StatusNotFound, StatusInternalServerError.
  by destruct (errors_Is_ErrNoRows e).
Qed.

End UsecaseProperties.

(** ** The post endpoints *)

Section PostEndpoints.
Context {ds : DataSource} {codecs : Codecs}.

Lemma main_post_selectUsecase (c : Request) :
  PostHandlerV2_selectUsecase main_postHandlerV2 (parseNoCache c) =
  NewPostUsecase (if parseNoCache c then basePostRepo else cachedPostRepo).
Proof. unfold PostHandlerV2_selectUsecase. by destruct (parseNoCache c). Qed.

Lemma selectedRead_posts (c : Request) (q : ReadOp) :
  selectedRead c q =
  repoRead (if parseNoCache c then baseUserRepo else cachedUserRepo)
           (if parseNoCache c then basePostRepo else cachedPostRepo) q.
Proof. unfold selectedRead. by destruct (parseNoCache c). Qed.

(** X10. A post request the handlers or the usecase reject reaches neither
    store, with or without [no_cache]: an [id] that is not an integer is
    answered 400, an [id] of zero or less 404, an empty slug 400, and in
    each case the world is left as it was, nothing is sent to Redis or
    MySQL and no goroutine is started. *)
Theorem rejected_post_requests_touch_no_store (c : Request) (w : World) :
  let h := main_postHandler in
  let rejected code message :=
    mkRes {| status := code; body := ErrorMessage message |} w [] [] in
  (snd (ParseInt (Param c "id")) = false ->
   PostHandlerBridge_GetPostByID h c w = rejected 400 "Invalid post ID") /\
  (snd (ParseInt (Param c "id")) = true -> fst (ParseInt (Param c "id")) <= 0 ->
   PostHandlerBridge_GetPostByID h c w = rejected 404 "Post not found") /\
  (Param c "slug" = "" ->
   PostHandlerBridge_GetPostBySlug h c w = rejected 400 "Slug is required" /\
   PostHandlerBridge_GetPostsByCategory h c w = rejected 400 "Category slug is required" /\
   PostHandlerBridge_GetPostsByTag h c w = rejected 400 "Tag slug is required").
Proof.
  cbv zeta. split; [|split].
  - intros Hbad. unfold PostHandlerBridge_GetPostByID.
    destruct (ParseInt (Param c "id")) as [id ok]. cbn [snd] in Hbad. by subst ok.
  - intros Hok Hid. unfold PostHandlerBridge_GetPostByID.
    destruct (ParseInt (Param c "id")) as [id ok]. cbn [fst snd] in Hok, Hid. subst ok.
    cbn [negb]. unfold main_postHandler, NewPostHandlerBridge. cbn [phb_handler].
    unfold PostHandlerV2_GetPostByID. rewrite main_post_selectUsecase.
    unfold NewPostUsecase. cbn [GetPostByID]. unfold postUsecase_GetPostByID.
    apply Z.leb_le in Hid. by rewrite Hid.
  - intros Hslug.
    unfold PostHandlerBridge_GetPostBySlug, PostHandlerBridge_GetPostsByCategory,
      PostHandlerBridge_GetPostsByTag, PostHandlerV2_GetPostBySlug,
      PostHandlerV2_GetPostsByCategory, PostHandlerV2_GetPostsByTag.
    by rewrite Hslug.
Qed.

(** X11. [GET /posts/featured]: whatever the [limit] parameter holds, the
    repository is asked for between 1 and 50 posts: for the number given
    when it is in that range, for 10 when it is absent, not a number or out
    of range.  The answer is 200 with the list, or 500 when the read fails. *)
Theorem featured_limit_clamped (c : Request) (w : World) :
  let limit := featured_limit (Atoi_value (QueryParam c "limit")) in
  let read := selectedRead c (PostFindFeaturedWithDetails limit) w in
  let r := PostHandlerBridge_GetFeaturedPosts main_postHandler c w in
  1 <= limit <= 50 /\
  world r = world read /\ events r = events read /\ spawned r = spawned read /\
  value r =
    match value read with
    | inr (VPosts posts) => {| status := 200; body := PostsJSON posts |}
    | _ => {| status := 500; body := ErrorMessage "Failed to retrieve featured posts" |}
    end.
Proof.
  cbv zeta. split.
  { unfold featured_limit.
    destruct (1 <=? Atoi_value (QueryParam c "limit")) eqn:H1,
             (Atoi_value (QueryParam c "limit") <=? 50) eqn:H2; cbn [andb]; lia. }
  unfold PostHandlerBridge_GetFeaturedPosts, main_postHandler, NewPostHandlerBridge.
  cbn [phb_handler]. unfold PostHandlerV2_GetFeaturedPosts.
  rewrite main_post_selectUsecase, selectedRead_posts.
  set (pr := if parseNoCache c then basePostRepo else cachedPostRepo).
  unfold NewPostUsecase. cbn [GetFeaturedPosts]. unfold postUsecase_GetFeaturedPosts.
  cbn [postRepo repoRead].
  set (n := Atoi_value (QueryParam c "limit")).
  assert (Hlimit : (let limit := if n <? 1 then 10 else n in
                    if (limit <? 1) || (50 <? limit) then 10 else limit) =
                   featured_limit n).
  { cbv zeta. unfold featured_limit.
    destruct (n <? 1) eqn:H1, (1 <=? n) eqn:H2; try lia; cbn [andb orb];
      [reflexivity|].
    rewrite H1. cbn [orb]. destruct (50 <? n) eqn:H3, (n <=? 50) eqn:H4; try lia;
      reflexivity. }
  cbv zeta in Hlimit |- *. rewrite Hlimit.
  unfold bind, mapM, JSON_response, ret. cbn [value world events spawned].
  destruct (value (FindFeaturedWithDetails pr (featured_limit n) w)) as [e|posts];
    cbn [value world events spawned inr_map]; by rewrite ?app_nil_r.
Qed.

Lemma limit_of_normalised (pageSize : Z) :
  specified_limit (if pageSize <? 1 then 20 else pageSize) = specified_limit pageSize.
Proof.
  unfold specified_limit. destruct (pageSize <? 1) eqn:H1; [|reflexivity].
  destruct (1 <=? pageSize) eqn:H2; [lia|]. reflexivity.
Qed.

Lemma page_of_normalised (page : Z) :
  (let page' := if page <? 1 then 1 else page in if page' <? 1 then 1 else page') =
  (if page <? 1 then 1 else page).
Proof. cbv zeta. destruct (page <? 1) eqn:H1; [reflexivity|]. by rewrite H1. Qed.

(** The list read of [GetPosts], for any repository. *)
Lemma GetPosts_list_read (pr : PostRepository) (page pageSize : Z) (w : World)
    (posts : list PostWithDetails) (total : Z) :
  value (GetPosts (NewPostUsecase pr) page pageSize w) = inr (posts, total) ->
  value (FindAllWithDetails pr (specified_limit pageSize)
           (GoInt.mul (GoInt.sub (if page <? 1 then 1 else page) 1)
                      (specified_limit pageSize)) w) = inr posts.
Proof.
  unfold NewPostUsecase. cbn [GetPosts]. unfold postUsecase_GetPosts. cbv zeta.
  rewrite code_limit. cbn [postRepo]. unfold bind. cbn [value world].
  destruct (value (FindAllWithDetails pr _ _ w)) as [e|ps]; cbn [ret value]; [discriminate|].
  destruct (value (GetTotalCount pr _)) as [e|n]; cbn [ret value]; [discriminate|].
  by intros [= -> _].
Qed.

(** X12. [GET /posts] answers with the page size of the request, not with
    the one it used: a successful response carries [page] and [pageSize] as
    sent (1 and 20 standing in for values below 1), while the list in it was
    read with the limit capped at 100, so that a [pageSize] of 500 is
    echoed as 500 over a list read with limit 20. *)
Theorem GetPosts_echoes_requested_page_size (c : Request) (w : World) :
  let page := Atoi_value (QueryParam c "page") in
  let pageSize := Atoi_value (QueryParam c "pageSize") in
  let page' := if page <? 1 then 1 else page in
  let limit := specified_limit pageSize in
  let r := PostHandlerBridge_GetPosts main_postHandler c w in
  status (value r) = 200 ->
  exists posts total,
    body (value r) =
      PostsPageJSON posts total page' (if pageSize <? 1 then 20 else pageSize) /\
    value (selectedRead c (PostFindAllWithDetails limit
                             (GoInt.mul (GoInt.sub page' 1) limit)) w) =
      inr (VPosts posts) /\
    1 <= limit <= 100 /\
    (100 < pageSize -> limit = 20).
Proof.
  cbv zeta. unfold PostHandlerBridge_GetPosts, main_postHandler, NewPostHandlerBridge.
  cbn [phb_handler]. unfold PostHandlerV2_GetPosts.
  rewrite main_post_selectUsecase, selectedRead_posts.
  set (pr := if parseNoCache c then basePostRepo else cachedPostRepo).
  set (page := Atoi_value (QueryParam c "page")).
  set (pageSize := Atoi_value (QueryParam c "pageSize")).
  cbv zeta. cbn [repoRead].
  pose proof (GetPosts_list_read pr (if page <? 1 then 1 else page)
                (if pageSize <? 1 then 20 else pageSize) w) as Hlist.
  rewrite limit_of_normalised in Hlist.
  pose proof (page_of_normalised page) as Hpage. cbv zeta in Hpage. rewrite Hpage in Hlist.
  unfold bind. cbn [value].
  destruct (value (GetPosts (NewPostUsecase pr) _ _ w)) as [e|[posts total]];
    cbn [JSON_response ret value status body].
  { unfold StatusInternalServerError. discriminate. }
  intros _. exists posts, total. split; [reflexivity|]. split.
  { unfold mapM. cbn [value]. by rewrite (Hlist posts total eq_refl). }
  split; [apply specified_limit_bounds|].
  intros Hbig. unfold specified_limit.
  destruct (pageSize <=? 100) eqn:H; [lia|]. by rewrite andb_false_r.
Qed.

End PostEndpoints.

(** ** An empty cache is transparent *)

Section Transparency.
Context {ds : DataSource} {codecs : Codecs}.

Lemma miss_value (q : ReadOp) (w : World) :
  kv w !! cacheKey q = None -> value (cachedRead q w) = dsRead q (db w).
Proof.
  intros H. rewrite cachedRead_spec, (cold_is_miss q w H).
  by destruct (dsRead q (db w)).
Qed.

Lemma cachedRead_other_keys (q : ReadOp) (w : World) (k : string) :
  k <> cacheKey q -> kv (world (cachedRead q w)) !! k = kv w !! k.
Proof.
  intros Hk. rewrite cachedRead_spec. destruct (cacheHit q w); [reflexivity|].
  destruct (dsRead q (db w)); [reflexivity|].
  unfold populated, redis_Set. cbn [world].
  destruct (next_fault _); [reflexivity|]. cbn [kv set_kv after_command set_faults].
  by apply lookup_insert_ne.
Qed.

Lemma inr_map_inj {A B : Type} (f : A -> B) (a b : error + A) :
  (forall x y, f x = f y -> x = y) -> inr_map f a = inr_map f b -> a = b.
Proof.
  intros Hf. destruct a, b; cbn; try discriminate; intros [= H]; f_equal; auto.
Qed.

Ltac typed_miss q :=
  let H := fresh in
  intros H; apply (miss_value q) in H;
  unfold cachedRead, repoRead, mapM, dsRead in H; cbn [value] in H;
  apply inr_map_inj in H; [exact H | intros ? ?; congruence].

Lemma miss_FindAll (w : World) :
  kv w !! "users:all" = None -> value (FindAll cachedUserRepo w) = ds_user_FindAll (db w).
Proof. typed_miss UserFindAll. Qed.

Lemma miss_FindByID (id : Z) (w : World) :
  kv w !! cacheKey (UserFindByID id) = None ->
  value (FindByID cachedUserRepo id w) = ds_user_FindByID (db w) id.
Proof. typed_miss (UserFindByID id). Qed.

Lemma miss_FindAllWithDetails (limit offset : Z) (w : World) :
  kv w !! cacheKey (PostFindAllWithDetails limit offset) = None ->
  value (FindAllWithDetails cachedPostRepo limit offset w) =
  ds_post_FindAllWithDetails (db w) limit offset.
Proof. typed_miss (PostFindAllWithDetails limit offset). Qed.

Lemma miss_FindByIDWithDetails (id : Z) (w : World) :
  kv w !! cacheKey (PostFindByIDWithDetails id) = None ->
  value (FindByIDWithDetails cachedPostRepo id w) = ds_post_FindByIDWithDetails (db w) id.
Proof. typed_miss (PostFindByIDWithDetails id). Qed.

Lemma miss_FindBySlugWithDetails (slug : string) (w : World) :
  kv w !! cacheKey (PostFindBySlugWithDetails slug) = None ->
  value (FindBySlugWithDetails cachedPostRepo slug w) =
  ds_post_FindBySlugWithDetails (db w) slug.
Proof. typed_miss (PostFindBySlugWithDetails slug). Qed.

Lemma miss_FindByCategoryWithDetails (slug : string) (limit offset : Z) (w : World) :
  kv w !! cacheKey (PostFindByCategoryWithDetails slug limit offset) = None ->
  value (FindByCategoryWithDetails cachedPostRepo slug limit offset w) =
  ds_post_FindByCategoryWithDetails (db w) slug limit offset.
Proof. typed_miss (PostFindByCategoryWithDetails slug limit offset). Qed.

Lemma miss_FindByTagWithDetails (slug : string) (limit offset : Z) (w : World) :
  kv w !! cacheKey (PostFindByTagWithDetails slug limit offset) = None ->
  value (FindByTagWithDetails cachedPostRepo slug limit offset w) =
  ds_post_FindByTagWithDetails (db w) slug limit offset.
Proof. typed_miss (PostFindByTagWithDetails slug limit offset). Qed.

Lemma miss_FindFeaturedWithDetails (limit : Z) (w : World) :
  kv w !! cacheKey (PostFindFeaturedWithDetails limit) = None ->
  value (FindFeaturedWithDetails cachedPostRepo limit w) =
  ds_post_FindFeaturedWithDetails (db w) limit.
Proof. typed_miss (PostFindFeaturedWithDetails limit). Qed.

Lemma miss_GetTotalCount (w : World) :
  kv w !! "posts:totalcount" = None ->
  value (GetTotalCount cachedPostRepo w) = ds_post_GetTotalCount (db w).
Proof. typed_miss PostGetTotalCount. Qed.

Lemma list_key_not_totalcount (limit offset : Z) :
  "posts:totalcount" <> cacheKey (PostFindAllWithDetails limit offset).
Proof. cbn. intros [=]. Qed.

(** On an empty cache the cache-backed usecases return what the direct ones
    return. *)
Lemma usecases_agree_on_empty_cache (w : World) :
  kv w = ∅ ->
  value (GetAllUsers main_userUsecase w) = value (GetAllUsers main_directUserUsecase w) /\
  (forall id, value (GetUserByID main_userUsecase id w) =
              value (GetUserByID main_directUserUsecase id w)) /\
  (forall page pageSize,
     value (GetPosts main_postUsecase page pageSize w) =
     value (GetPosts main_directPostUsecase page pageSize w)) /\
  (forall id, value (GetPostByID main_postUsecase id w) =
              value (GetPostByID main_directPostUsecase id w)) /\
  (forall slug, value (GetPostBySlug main_postUsecase slug w) =
                value (GetPostBySlug main_directPostUsecase slug w)) /\
  (forall slug page pageSize,
     value (GetPostsByCategory main_postUsecase slug page pageSize w) =
     value (GetPostsByCategory main_directPostUsecase slug page pageSize w)) /\
  (forall slug page pageSize,
     value (GetPostsByTag main_postUsecase slug page pageSize w) =
     value (GetPostsByTag main_directPostUsecase slug page pageSize w)) /\
  (forall limit, value (GetFeaturedPosts main_postUsecase limit w) =
                 value (GetFeaturedPosts main_directPostUsecase limit w)).
Proof.
  intros Hempty.
  assert (Hnone : forall k, kv w !! k = None) by (intros k; by rewrite Hempty).
  unfold main_userUsecase, main_directUserUsecase, main_postUsecase,
    main_directPostUsecase, NewUserUsecase, NewPostUsecase.
  cbn [GetAllUsers GetUserByID GetPosts GetPostByID GetPostBySlug GetPostsByCategory
       GetPostsByTag GetFeaturedPosts].
  unfold userUsecase_GetAllUsers, userUsecase_GetUserByID, postUsecase_GetPosts,
    postUsecase_GetPostByID, postUsecase_GetPostBySlug, postUsecase_GetPostsByCategory,
    postUsecase_GetPostsByTag, postUsecase_GetFeaturedPosts.
  cbn [userRepo postRepo].
  repeat split.
  - by rewrite miss_FindAll.
  - intros id. by rewrite miss_FindByID.
  - intros page pageSize. cbv zeta. unfold bind. cbn [value world].
    rewrite miss_FindAllWithDetails by done.
    set (w1 := world (FindAllWithDetails cachedPostRepo _ _ w)).
    assert (Hw1 : kv w1 !! "posts:totalcount" = None /\ db w1 = db w).
    { split.
      - unfold w1.
        change (FindAllWithDetails cachedPostRepo ?l ?o w) with
          (FindAllWithDetails cachedPostRepo l o w).
        etransitivity; [|apply (Hnone "posts:totalcount")].
        apply (cachedRead_other_keys (PostFindAllWithDetails _ _) w).
        apply list_key_not_totalcount.
      - apply (cachedRead_keeps_db (PostFindAllWithDetails _ _) w). }
    destruct Hw1 as [Hk Hdb].
    cbn [basePostRepo mysql_NewPostRepository FindAllWithDetails GetTotalCount].
    unfold ds_query. cbn [value world].
    destruct (ds_post_FindAllWithDetails (db w) _ _) as [e|posts]; cbn [ret value world];
      [reflexivity|].
    rewrite miss_GetTotalCount by done. rewrite Hdb.
    by destruct (ds_post_GetTotalCount (db w)).
  - intros id. destruct (id <=? 0); [reflexivity|]. unfold bind. cbn [value world].
    rewrite miss_FindByIDWithDetails by done.
    cbn [basePostRepo mysql_NewPostRepository FindByIDWithDetails]. unfold ds_query.
    cbn [value]. by destruct (ds_post_FindByIDWithDetails (db w) id).
  - intros slug. destruct (String.eqb slug ""); [reflexivity|]. unfold bind.
    cbn [value world]. rewrite miss_FindBySlugWithDetails by done.
    cbn [basePostRepo mysql_NewPostRepository FindBySlugWithDetails]. unfold ds_query.
    cbn [value]. by destruct (ds_post_FindBySlugWithDetails (db w) slug).
  - intros slug page pageSize. destruct (String.eqb slug ""); [reflexivity|].
    cbv zeta. unfold bind. cbn [value world].
    rewrite miss_FindByCategoryWithDetails by done.
    cbn [basePostRepo mysql_NewPostRepository FindByCategoryWithDetails]. unfold ds_query.
    cbn [value]. by destruct (ds_post_FindByCategoryWithDetails (db w) _ _ _).
  - intros slug page pageSize. destruct (String.eqb slug ""); [reflexivity|].
    cbv zeta. unfold bind. cbn [value world].
    rewrite miss_FindByTagWithDetails by done.
    cbn [basePostRepo mysql_NewPostRepository FindByTagWithDetails]. unfold ds_query.
    cbn [value]. by destruct (ds_post_FindByTagWithDetails (db w) _ _).
  - intros limit. cbv zeta. unfold bind. cbn [value world].
    rewrite miss_FindFeaturedWithDetails by done.
    cbn [basePostRepo mysql_NewPostRepository FindFeaturedWithDetails]. unfold ds_query.
    cbn [value]. by destruct (ds_post_FindFeaturedWithDetails (db w) _).
Qed.

Lemma parseNoCache_with_no_cache (c : Request) : parseNoCache (with_no_cache c) = true.
Proof. reflexivity. Qed.

Lemma QueryParam_with_no_cache (c : Request) (name : string) :
  name <> "no_cache" -> QueryParam (with_no_cache c) name = QueryParam c name.
Proof.
  intros Hname. cbn [with_no_cache QueryParam].
  by apply String.eqb_neq in Hname as ->.
Qed.

(** The handlers read nothing of the request but the flag, the path and the
    pagination parameters: with one usecase on both sides the flag makes no
    difference. *)
Lemma serveRead_one_usecase (uu : UserUsecase) (pu : PostUsecase) (ep : ReadEndpoint)
    (c : Request) :
  serveRead (NewUserHandler uu uu) (NewPostHandlerBridge (NewPostHandlerV2 pu pu)) ep
    (with_no_cache c) =
  serveRead (NewUserHandler uu uu) (NewPostHandlerBridge (NewPostHandlerV2 pu pu)) ep c.
Proof.
  destruct ep; unfold serveRead, UserHandler_GetUsers, UserHandler_GetUserById,
    PostHandlerBridge_GetPosts, PostHandlerBridge_GetFeaturedPosts,
    PostHandlerBridge_GetPostByID, PostHandlerBridge_GetPostBySlug,
    PostHandlerBridge_GetPostsByCategory, PostHandlerBridge_GetPostsByTag,
    PostHandlerV2_GetPosts, PostHandlerV2_GetFeaturedPosts, PostHandlerV2_GetPostByID,
    PostHandlerV2_GetPostBySlug, PostHandlerV2_GetPostsByCategory,
    PostHandlerV2_GetPostsByTag;
    rewrite ?UserHandler_selectUsecase_spec, ?parseNoCache_with_no_cache;
    rewrite ?(QueryParam_with_no_cache c "page"), ?(QueryParam_with_no_cache c "pageSize"),
      ?(QueryParam_with_no_cache c "limit") by done;
    unfold PostHandlerV2_selectUsecase, NewUserHandler, NewPostHandlerBridge,
      NewPostHandlerV2;
    cbn [uh_userUsecase uh_directUserUsecase phb_handler ph_postUsecase
         ph_directPostUsecase with_no_cache Param];
    destruct (parseNoCache c); reflexivity.
Qed.

(** X13. An empty cache is transparent.  When the store holds no entry,
    every read endpoint answers a request exactly as it answers the same
    request with [no_cache=true], whether or not the store is reachable
    while the request runs. *)
Theorem empty_cache_answers_as_bypass (ep : ReadEndpoint) (c : Request) (w : World) :
  kv w = ∅ ->
  value (serveRead main_userHandler main_postHandler ep c w) =
  value (serveRead main_userHandler main_postHandler ep (with_no_cache c) w).
Proof.
  intros Hempty.
  destruct (usecases_agree_on_empty_cache w Hempty)
    as (Hall & Hone & Hposts & Hid & Hslug & Hcat & Htag & Hfeat).
  unfold main_userHandler, main_postHandler, main_postHandlerV2.
  rewrite (serveRead_selects main_userUsecase main_directUserUsecase main_postUsecase
             main_directPostUsecase ep (with_no_cache c)).
  rewrite parseNoCache_with_no_cache, serveRead_one_usecase.
  rewrite (serveRead_selects main_userUsecase main_directUserUsecase main_postUsecase
             main_directPostUsecase ep c).
  destruct (parseNoCache c); [reflexivity|].
  destruct ep; unfold serveRead, UserHandler_GetUsers, UserHandler_GetUserById,
    PostHandlerBridge_GetPosts, PostHandlerBridge_GetFeaturedPosts,
    PostHandlerBridge_GetPostByID, PostHandlerBridge_GetPostBySlug,
    PostHandlerBridge_GetPostsByCategory, PostHandlerBridge_GetPostsByTag,
    PostHandlerV2_GetPosts, PostHandlerV2_GetFeaturedPosts, PostHandlerV2_GetPostByID,
    PostHandlerV2_GetPostBySlug, PostHandlerV2_GetPostsByCategory,
    PostHandlerV2_GetPostsByTag;
    rewrite ?UserHandler_selectUsecase_spec;
    unfold PostHandlerV2_selectUsecase, NewUserHandler, NewPostHandlerBridge,
      NewPostHandlerV2;
    cbn [uh_userUsecase uh_directUserUsecase phb_handler ph_postUsecase
         ph_directPostUsecase];
    repeat match goal with |- context [if ?b then _ else _] => destruct b end;
    try reflexivity;
    try (destruct (ParseInt (Param c "id")) as [id []]; cbn [negb]; [|reflexivity]);
    cbv zeta; unfold bind; cbn [value];
    rewrite ?Hall, ?Hone, ?Hposts, ?Hid, ?Hslug, ?Hcat, ?Htag, ?Hfeat;
    repeat match goal with
           | |- context [match ?x with inl _ => _ | inr _ => _ end] => destruct x
           | |- context [let '(_, _) := ?x in _] => destruct x
           | |- context [if ?b then _ else _] => destruct b
           end; reflexivity.
Qed.

End Transparency.

(** ** How long a stale entry can live *)

Section Staleness.
Context {ds : DataSource} {codecs : Codecs}.

Lemma redis_Del_only_removes (keys : list string) (w : World) (k : string) (e : Entry) :
  kv (world (redis_Del keys w)) !! k = Some e -> kv w !! k = Some e.
Proof.
  rewrite kv_redis_Del. destruct (next_fault w); [done|].
  by intros [_ ?]%lookup_foldr_delete_Some.
Qed.

(** A cached write never adds or changes an entry. *)
Lemma cachedWrite_only_removes (q : WriteOp) (w : World) (k : string) (e : Entry) :
  kv (world (cachedWrite q w)) !! k = Some e -> kv w !! k = Some e.
Proof.
  destruct (fst (dsWrite q (db w))) as [err|] eqn:Hres.
  { by rewrite (cachedWrite_failed q w err Hres). }
  destruct (cachedWrite_world q w Hres) as [_ ->]. cbv zeta.
  destruct q.
  - by intros ?%redis_Del_only_removes.
  - by intros ?%redis_Del_only_removes%redis_Del_only_removes.
  - by intros ?%redis_Del_only_removes%redis_Del_only_removes.
  - unfold after_post_invalidation. cbv zeta. destruct (0 <? _).
    + intros H%redis_Del_only_removes. rewrite kv_redis_Keys in H.
      by apply redis_Del_only_removes in H.
    + rewrite kv_redis_Keys. by intros ?%redis_Del_only_removes.
Qed.

Lemma cachedWrite_unreachable (q : WriteOp) (w : World) (fs : list bool) :
  fst (dsWrite q (db w)) = None ->
  faults w = true :: true :: fs ->
  kv (world (cachedWrite q w)) = kv w.
Proof.
  intros Hres Hf. destruct (cachedWrite_world q w Hres) as [_ ->]. cbv zeta.
  set (w1 := set_db (snd (dsWrite q (db w))) w).
  assert (H1 : forall keys, kv (world (redis_Del keys w1)) = kv w).
  { intros keys. rewrite kv_redis_Del. unfold next_fault, w1. cbn [faults set_db].
    by rewrite Hf. }
  assert (H2 : forall keys keys',
             kv (world (redis_Del keys' (world (redis_Del keys w1)))) = kv w).
  { intros keys keys'. rewrite kv_redis_Del. unfold next_fault.
    rewrite faults_redis_Del. unfold w1. cbn [faults set_db]. rewrite Hf. cbn [tl hd].
    apply H1. }
  destruct q; [apply H1|apply H2|apply H2|].
  unfold after_post_invalidation. cbv zeta.
  assert (Hkeys : value (redis_Keys "posts:*"
                           (world (redis_Del [getPostCacheKey postID] w1))) = []).
  { unfold redis_Keys. cbn [value]. unfold next_fault. rewrite faults_redis_Del.
    unfold w1. cbn [faults set_db]. by rewrite Hf. }
  rewrite Hkeys. change (0 <? Z.of_nat (length [])) with false. cbv iota.
  rewrite kv_redis_Keys. apply H1.
Qed.

(** X14. A failed invalidation is silent and leaves stale data.  When the
    data source write succeeds while the store is unreachable, the write
    still reports success and the keyspace is as before; once the store is
    reachable again every entry that was usable before the write is served
    as it is, without a query, whatever the write changed in the database. *)
Theorem failed_invalidation_serves_stale (q : WriteOp) (w : World) (fs : list bool) :
  fst (dsWrite q (db w)) = None ->
  faults w = true :: true :: fs ->
  let w' := set_faults [] (world (cachedWrite q w)) in
  value (cachedWrite q w) = None /\
  db w' = snd (dsWrite q (db w)) /\
  kv w' = kv w /\
  forall r v, cacheHit r (set_faults [] w) = Some v ->
    value (cachedRead r w') = inr v /\ no_ds_events (events (cachedRead r w')).
Proof.
  intros Hres Hf w'.
  assert (Hkv : kv w' = kv w) by (apply (cachedWrite_unreachable q w fs); done).
  split; [by apply cachedWrite_world|]. split; [apply db_cachedWrite|].
  split; [exact Hkv|]. intros r v Hhit.
  assert (Hhit' : cacheHit r w' = Some v).
  { revert Hhit. unfold cacheHit, next_fault. cbn [faults set_faults hd].
    change (kv (set_faults [] w)) with (kv w). by rewrite <- Hkv. }
  rewrite cachedRead_spec, Hhit'. cbn [value events]. split; [reflexivity|].
  by repeat constructor.
Qed.

(** X15. Every entry is at most five minutes from its expiry, and this holds
    in every world the reads and writes reach from one where it holds (an
    empty cache, for one): a cached read, a cached write and the passing of
    time preserve it.  Hence five minutes without a request empty the
    store. *)
Theorem ttl_bound_invariant (w : World) :
  ttl_bounded w ->
  (forall q, ttl_bounded (world (cachedRead q w))) /\
  (forall q, ttl_bounded (world (cachedWrite q w))) /\
  (forall dt, 0 <= dt -> ttl_bounded (advance dt w)) /\
  (forall dt, 5 * Minute <= dt -> kv (advance dt w) = ∅).
Proof.
  intros Hinv. split; [|split; [|split]].
  - intros q k e. cbv beta.
    assert (Hnow : now (world (cachedRead q w)) = now w).
    { rewrite cachedRead_spec. destruct (cacheHit q w); [reflexivity|].
      destruct (dsRead q (db w)); [reflexivity|].
      unfold populated, redis_Set. cbn [world]. by destruct (next_fault _). }
    rewrite Hnow.
    destruct (decide (k = cacheKey q)) as [->|Hk];
      [|rewrite cachedRead_other_keys by done; apply Hinv].
    rewrite cachedRead_spec. destruct (cacheHit q w); [apply Hinv|].
    destruct (dsRead q (db w)); [apply Hinv|].
    unfold populated, redis_Set. cbn [world].
    destruct (next_fault _); [apply Hinv|].
    cbn [kv set_kv after_command set_faults now]. rewrite lookup_insert_eq.
    intros [= <-]. cbn [expires]. lia.
  - intros q k e He%cachedWrite_only_removes. cbv beta. rewrite now_cachedWrite.
    by apply (Hinv k e).
  - intros dt Hdt k e. unfold advance. cbn [kv now].
    intros [He _]%map_lookup_filter_Some. specialize (Hinv k e He). cbv beta in Hinv. lia.
  - intros dt Hdt. apply map_empty. intros k. unfold advance. cbn [kv].
    apply map_lookup_filter_None_2.
    destruct (kv w !! k) as [e|] eqn:He; [right|by left].
    intros e' [= <-]. cbn [snd]. specialize (Hinv k e He). cbv beta in Hinv.
    intros Hlt%Z.ltb_lt. lia.
Qed.

End Staleness.

(** ** The two generations of the post handler *)

Section PostHandlerGenerations.
Context {ds : DataSource}.

(** X16. The framework-independent handler behind its Echo bridge is a
    faithful split of the Echo handler: given the same two usecases, the
    two answer every request on each of the six routes with the same
    response, the same calls to the stores and the same goroutines. *)
Theorem bridge_refines_PostHandler (postUsecase directPostUsecase : PostUsecase)
    (ep : PostEndpoint) (c : Request) (w : World) :
  servePostBridge (NewPostHandlerBridge (NewPostHandlerV2 postUsecase directPostUsecase))
    ep c w =
  servePost (NewPostHandler postUsecase directPostUsecase) ep c w.
Proof.
  destruct ep; unfold servePostBridge, servePost,
    PostHandlerBridge_GetPosts, PostHandlerBridge_GetFeaturedPosts,
    PostHandlerBridge_GetPostByID, PostHandlerBridge_GetPostBySlug,
    PostHandlerBridge_GetPostsByCategory, PostHandlerBridge_GetPostsByTag,
    PostHandlerV2_GetPosts, PostHandlerV2_GetFeaturedPosts, PostHandlerV2_GetPostByID,
    PostHandlerV2_GetPostBySlug, PostHandlerV2_GetPostsByCategory,
    PostHandlerV2_GetPostsByTag,
    PostHandler_GetPosts, PostHandler_GetFeaturedPosts, PostHandler_GetPostByID,
    PostHandler_GetPostBySlug, PostHandler_GetPostsByCategory, PostHandler_GetPostsByTag,
    PostHandlerV2_selectUsecase, PostHandler_selectUsecase, parseNoCache,
    NewPostHandlerBridge, NewPostHandlerV2, NewPostHandler;
    cbn [phb_handler ph_postUsecase ph_directPostUsecase poh_postUsecase
         poh_directPostUsecase];
    reflexivity.
Qed.

End PostHandlerGenerations.

(** ** The tags of a page of posts *)

Section Tags.

Lemma scanTags_ok (tagRows : list (Z * Tag)) (tagsMap : gmap Z (list Tag)) :
  exists tagsMap',
    scanTags (map inr tagRows) tagsMap = inr tagsMap' /\
    forall postID,
      tagsMap' !! postID =
      match tags_of postID tagRows with
      | [] => tagsMap !! postID
      | tags => Some (default [] (tagsMap !! postID) ++ tags)%list
      end.
Proof.
  revert tagsMap. induction tagRows as [|[pid tag] rows IH]; intros tagsMap.
  { exists tagsMap. by split. }
  cbn [map scanTags].
  destruct (IH (<[pid := (default [] (tagsMap !! pid) ++ [tag])%list]> tagsMap))
    as (tagsMap' & Hscan & Hlookup).
  exists tagsMap'. split; [exact Hscan|]. intros postID. rewrite Hlookup.
  unfold tags_of. cbn [List.filter fst].
  destruct (pid =? postID) eqn:Hpid.
  - apply Z.eqb_eq in Hpid as ->. rewrite lookup_insert_eq. cbn [map snd default].
    destruct (map snd (List.filter _ rows)) as [|t ts]; [reflexivity|].
    cbv [id]. by rewrite <- app_assoc.
  - apply Z.eqb_neq in Hpid. by rewrite lookup_insert_ne.
Qed.

Lemma scanPosts_ok (posts acc : list PostWithDetails) (ids : list Z) :
  scanPosts (map inr posts) acc ids =
  inr ((acc ++ posts)%list, (ids ++ map (fun post => Post_ID (PWD_Post post)) posts)%list).
Proof.
  revert acc ids. induction posts as [|post posts IH]; intros acc ids; cbn [map scanPosts].
  - by rewrite !app_nil_r.
  - rewrite IH. by rewrite <- !app_assoc.
Qed.

(** X17. [scanPostsWithTags] gives each post of the page the tags of the
    rows that carry its ID, in the order of the rows, and leaves a post no
    row mentions as it was scanned.  The tag query is sent once, for the
    IDs of the scanned posts in row order, and not at all when the page is
    empty. *)
Theorem scanPostsWithTags_attaches_tags
    (QueryContext : list Z -> error + Rows (Z * Tag))
    (posts : list PostWithDetails) (tagRows : list (Z * Tag)) :
  (posts <> [] ->
   QueryContext (map (fun post => Post_ID (PWD_Post post)) posts) =
     inr (mkRows (map inr tagRows) None)) ->
  scanPostsWithTags QueryContext (mkRows (map inr posts) None) =
  inr (map (fun post =>
              match tags_of (Post_ID (PWD_Post post)) tagRows with
              | [] => post
              | tags => set_Tags tags post
              end) posts).
Proof.
  intros Hquery. unfold scanPostsWithTags. cbn [Rows_scans Rows_Err].
  rewrite scanPosts_ok. cbn [app].
  destruct posts as [|post posts]; [reflexivity|].
  specialize (Hquery ltac:(discriminate)).
  set (all := post :: posts) in *. cbn [map length Nat.ltb Nat.leb]. fold all.
  change (0 <? S _)%nat with true. cbv iota.
  unfold loadTagsForPosts.
  change (length (map _ all) =? 0)%nat with false. cbv iota.
  rewrite Hquery. cbn [Rows_scans Rows_Err].
  destruct (scanTags_ok tagRows ∅) as (tagsMap & -> & Hlookup). f_equal.
  apply map_ext. intros p. rewrite Hlookup, lookup_empty. cbn [default app].
  by destruct (tags_of _ tagRows).
Qed.

End Tags.

(** ** Further scenarios on the test double *)

(** Renaming user 1 on the warm cache: the entry [user:1] is gone and the
    next read returns the renamed record. *)
Lemma invalidation_forces_fresh_read_witness :
  let w' := world (mock_cachedWrite (UserUpdate Mock.alice_renamed) Mock.warm) in
  kv w' !! "user:1" = None /\
  value (mock_cachedRead (UserFindByID 1) w') = inr (VUser Mock.alice_renamed).
Proof.
  destruct (invalidation_forces_fresh_read (ds := Mock.ds) (codecs := Mock.codecs)
              (UserUpdate Mock.alice_renamed) (UserFindByID 1) Mock.warm
              eq_refl eq_refl eq_refl) as (Hkey & Hval & _).
  split; [exact Hkey|]. rewrite Hval. reflexivity.
Defined.

(** The cold read of user 1 stores Alice's record for five minutes. *)
Lemma miss_populates_witness :
  kv (world (mock_cachedRead (UserFindByID 1) Mock.cold)) !! "user:1" =
    Some (mkEntry "{id:1,name:A}" (5 * Minute)).
Proof.
  destruct (miss_populates (ds := Mock.ds) (codecs := Mock.codecs)
              (UserFindByID 1) Mock.cold (VUser Mock.alice) eq_refl eq_refl eq_refl)
    as [Hkey _].
  exact Hkey.
Defined.

(** Five minutes after the cold read of user 1 the entry is gone. *)
Lemma entry_expires_after_ttl_witness :
  let w2 := advance (5 * Minute) (world (mock_cachedRead (UserFindByID 1) Mock.cold)) in
  kv w2 !! "user:1" = None /\
  value (mock_cachedRead (UserFindByID 1) w2) = inr (VUser Mock.alice).
Proof.
  destruct (entry_expires_after_ttl (ds := Mock.ds) (codecs := Mock.codecs)
              (UserFindByID 1) Mock.cold (VUser Mock.alice) (5 * Minute)
              eq_refl eq_refl eq_refl) as (Hgone & Hval & _).
  - lia.
  - split; [exact Hgone | exact Hval].
Defined.

(** Reading post 1 by ID on the cold cache: once the goroutine has run,
    [post:1] is not in the store. *)
Lemma detail_read_by_id_drops_its_entry_witness :
  let r := GetPostByID (main_postUsecase (ds := Mock.ds) (codecs := Mock.codecs)) 1
             Mock.cold in
  value r = inr Mock.hello /\
  kv (run_tasks (spawned r) (world r)) !! "post:1" = None.
Proof.
  destruct (detail_read_by_id_drops_its_entry (ds := Mock.ds) (codecs := Mock.codecs)
              1 Mock.cold Mock.hello eq_refl eq_refl eq_refl) as (_ & Hgone & _).
  split; [reflexivity | exact Hgone].
Defined.

(** [PUT /users/1] with a new name on the warm cache: the record written is
    the cached one with the name replaced. *)
Lemma UpdateUser_cached_hit_witness :
  cacheHit (ds := Mock.ds) (codecs := Mock.codecs) (UserFindByID 1) Mock.warm =
    Some (VUser Mock.alice) /\
  value (UpdateUser (main_userUsecase (ds := Mock.ds) (codecs := Mock.codecs))
           1 (Some "B") None None Mock.warm) = inr Mock.alice_renamed.
Proof.
  destruct (UpdateUser_cached_hit (ds := Mock.ds) (codecs := Mock.codecs)
              1 (Some "B") None None Mock.warm Mock.alice eq_refl) as [Hval _].
  split; [reflexivity|]. rewrite Hval. reflexivity.
Defined.

(** The cold read of user 1 leaves the database alone and starts no
    goroutine. *)
Lemma cached_read_frame_witness :
  db (world (mock_cachedRead (UserFindByID 1) Mock.cold)) = db Mock.cold /\
  spawned (mock_cachedRead (UserFindByID 1) Mock.cold) = [] /\
  kv (world (mock_cachedRead (UserFindByID 1) Mock.cold)) !! "users:all" = None.
Proof.
  destruct (cached_read_frame (ds := Mock.ds) (codecs := Mock.codecs)
              (UserFindByID 1) Mock.cold) as (Hdb & _ & Hspawn & Hkeys & _).
  split; [exact Hdb|]. split; [exact Hspawn|].
  rewrite (Hkeys "users:all"); [reflexivity | discriminate].
Defined.

(** [GET /posts/abc], [GET /posts/0] and [GET /posts/slug/] on the cold
    cache. *)
Lemma rejected_post_requests_touch_no_store_witness :
  status (value (PostHandlerBridge_GetPostByID
                   (main_postHandler (ds := Mock.ds) (codecs := Mock.codecs))
                   (Scenario.path_request "abc" "") Mock.cold)) = 400 /\
  PostHandlerBridge_GetPostByID
    (main_postHandler (ds := Mock.ds) (codecs := Mock.codecs))
    (Scenario.path_request "0" "") Mock.cold =
    mkRes {| status := 404; body := ErrorMessage "Post not found" |} Mock.cold [] [] /\
  events (PostHandlerBridge_GetPostBySlug
            (main_postHandler (ds := Mock.ds) (codecs := Mock.codecs))
            (Scenario.path_request "1" "") Mock.cold) = [].
Proof.
  split; [|split].
  - destruct (rejected_post_requests_touch_no_store (ds := Mock.ds) (codecs := Mock.codecs)
                (Scenario.path_request "abc" "") Mock.cold) as (Hbad & _ & _).
    rewrite (Hbad eq_refl). reflexivity.
  - destruct (rejected_post_requests_touch_no_store (ds := Mock.ds) (codecs := Mock.codecs)
                (Scenario.path_request "0" "") Mock.cold) as (_ & Hzero & _).
    apply (Hzero eq_refl). change (0 <= 0). lia.
  - destruct (rejected_post_requests_touch_no_store (ds := Mock.ds) (codecs := Mock.codecs)
                (Scenario.path_request "1" "") Mock.cold) as (_ & _ & Hslug).
    destruct (Hslug eq_refl) as (-> & _). reflexivity.
Defined.

(** [GET /posts?page=1&pageSize=500] on the cold cache: the response says
    500, the list was read with limit 20. *)
Lemma GetPosts_echoes_requested_page_size_witness :
  exists posts total,
    body (value (PostHandlerBridge_GetPosts
                   (main_postHandler (ds := Mock.ds) (codecs := Mock.codecs))
                   (Mock.page_request "1" "500") Mock.cold)) =
      PostsPageJSON posts total 1 500 /\
    value (mock_cachedRead (PostFindAllWithDetails 20 0) Mock.cold) = inr (VPosts posts).
Proof.
  destruct (GetPosts_echoes_requested_page_size (ds := Mock.ds) (codecs := Mock.codecs)
              (Mock.page_request "1" "500") Mock.cold eq_refl)
    as (posts & total & Hbody & Hread & _ & _).
  exists posts, total. split; [exact Hbody | exact Hread].
Defined.

(** [GET /users] on the cold cache answers as [GET /users?no_cache=true]:
    200 with both users. *)
Lemma empty_cache_answers_as_bypass_witness :
  kv Mock.cold = ∅ /\
  value (serveRead (main_userHandler (ds := Mock.ds) (codecs := Mock.codecs))
           (main_postHandler (ds := Mock.ds) (codecs := Mock.codecs))
           GET_users (Mock.request "") Mock.cold) =
  {| status := 200; body := UsersJSON [Mock.alice; Mock.bob] |}.
Proof.
  split; [reflexivity|].
  rewrite (empty_cache_answers_as_bypass (ds := Mock.ds) (codecs := Mock.codecs)
             GET_users (Mock.request "") Mock.cold eq_refl).
  reflexivity.
Defined.

(** Renaming user 1 while the store is unreachable: the write succeeds, and
    the next read still returns the record with the old name. *)
Lemma failed_invalidation_serves_stale_witness :
  let w' := set_faults []
              (world (mock_cachedWrite (UserUpdate Mock.alice_renamed)
                        Scenario.warm_unreachable)) in
  value (mock_directRead (UserFindByID 1) w') = inr (VUser Mock.alice_renamed) /\
  value (mock_cachedRead (UserFindByID 1) w') = inr (VUser Mock.alice).
Proof.
  destruct (failed_invalidation_serves_stale (ds := Mock.ds) (codecs := Mock.codecs)
              (UserUpdate Mock.alice_renamed) Scenario.warm_unreachable [] eq_refl eq_refl)
    as (_ & _ & _ & Hstale).
  split; [reflexivity|].
  exact (proj1 (Hstale (UserFindByID 1) (VUser Mock.alice) eq_refl)).
Defined.

(** From the cold cache: after the read of user 1 every entry is within
    five minutes of its expiry, and five minutes later the store is empty. *)
Lemma ttl_bound_invariant_witness :
  ttl_bounded (world (mock_cachedRead (UserFindByID 1) Mock.cold)) /\
  kv (advance (5 * Minute) Mock.cold) = ∅.
Proof.
  assert (Hcold : ttl_bounded Mock.cold) by apply map_Forall_empty.
  destruct (ttl_bound_invariant (ds := Mock.ds) (codecs := Mock.codecs) Mock.cold Hcold)
    as (Hread & _ & _ & Hempty).
  split; [apply Hread | apply Hempty; lia].
Defined.

(** A page of two posts and two tag rows for the first of them. *)
Lemma scanPostsWithTags_attaches_tags_witness :
  scanPostsWithTags Scenario.tag_query (mkRows [inr Mock.hello; inr Scenario.second] None) =
  inr [set_Tags [Scenario.tag 10 "go"; Scenario.tag 11 "web"] Mock.hello; Scenario.second].
Proof.
  exact (scanPostsWithTags_attaches_tags Scenario.tag_query
           [Mock.hello; Scenario.second] Scenario.tag_rows (fun _ => eq_refl)).
Defined.

(** [PUT /users/9] on the cold cache, where the database holds users 1 and
    2: 404, and the database is as before. *)
Lemma update_of_missing_user_writes_nothing_witness :
  let r := UserHandlerV2_UpdateUser (main_userHandlerV2 (ds := Mock.ds) (codecs := Mock.codecs))
             (Mock.rename_request "") 9 Mock.cold in
  status (value r) = 404 /\ db (world r) = db Mock.cold.
Proof.
  destruct (update_of_missing_user_writes_nothing (ds := Mock.ds) (codecs := Mock.codecs)
              (Mock.rename_request "") 9 Mock.cold _ ErrNoRows eq_refl eq_refl eq_refl)
    as (Hval & _ & _ & Hdb & _).
  split; [rewrite Hval; reflexivity | exact Hdb].
Defined.
